(** * create_top1000_verses.py: reference parsing, verse extraction, quiz records

    A shallow embedding of [parse_verse_reference], [extract_verses_from_kjv]
    and the question-building loop of [main], together with the part of the
    Python runtime they rely on: [str.strip], [int], [str], list indexing
    with negative indices, [range], [dict.get], and the backtracking
    matcher behind [re.match] and [re.sub].

    Modelling conventions.
    - A Python [str] is a [string]; each character stands for one code
      point below 256.  On that range [\d] is [0-9] and [\s] is the set
      recognised by [str.isspace].
    - Python integers are [Z].  [int] is modelled on what the pattern can
      hand to it: non-empty strings of decimal digits.  It raises
      [ValueError] on a string of more than [max_str_digits] characters,
      as CPython does with its default limit on integer string conversion
      ([sys.int_info.default_max_str_digits], 4300).
    - An exception is a value [Raise e] of the result type [res]; [print]
      appends a line to the [out] component of the state.
    - The corpus is typed as the script reads it: a list of book entries,
      each with an optional ['abbrev'] and an optional ['chapters'] list of
      lists of verse strings. *)

From Stdlib Require Import ZArith NArith List Sorted String Ascii Bool Lia DecimalString
  DecimalPos.
Import ListNotations.

Local Open Scope string_scope.
Local Open Scope Z_scope.

(** ** The Python runtime *)

Module Py.

Inductive exn : Type :=
| IndexError
| ValueError
| TypeError
| AttributeError.

Inductive res (A : Type) : Type :=
| Ok (a : A)
| Raise (e : exn).

Arguments Ok {A} a.
Arguments Raise {A} e.

Definition bind {A B : Type} (c : res A) (f : A -> res B) : res B :=
  match c with
  | Ok a => f a
  | Raise e => Raise e
  end.

(** Character classes, on the code point of the character. *)

Definition code (c : ascii) : N := N_of_ascii c.

Definition isdigit (c : ascii) : bool :=
  ((48 <=? code c) && (code c <=? 57))%N.

Definition isalpha (c : ascii) : bool :=
  (((65 <=? code c) && (code c <=? 90)) || ((97 <=? code c) && (code c <=? 122)))%N.

Definition isspace (c : ascii) : bool :=
  (((9 <=? code c) && (code c <=? 13)) || ((28 <=? code c) && (code c <=? 32))
   || (code c =? 133) || (code c =? 160))%N.

(** [str.strip()] with no argument. *)

Fixpoint lstrip (s : string) : string :=
  match s with
  | EmptyString => EmptyString
  | String c s' => if isspace c then lstrip s' else s
  end.

Fixpoint rstrip (s : string) : string :=
  match s with
  | EmptyString => EmptyString
  | String c s' =>
      match rstrip s' with
      | EmptyString => if isspace c then EmptyString else String c EmptyString
      | r => String c r
      end
  end.

Definition strip (s : string) : string := rstrip (lstrip s).

(** [int(s)] for a string of decimal digits. *)

Fixpoint all (p : ascii -> bool) (s : string) : bool :=
  match s with
  | EmptyString => true
  | String c s' => p c && all p s'
  end.

Fixpoint digits_value (acc : Z) (s : string) : Z :=
  match s with
  | EmptyString => acc
  | String c s' => digits_value (10 * acc + (Z.of_N (code c) - 48)) s'
  end.

(** The default limit on the number of digit characters [int] converts;
    leading zeros count. *)
Definition max_str_digits : nat := 4300.

Definition int (s : string) : res Z :=
  match s with
  | EmptyString => Raise ValueError
  | _ =>
      if all isdigit s then
        if (max_str_digits <? String.length s)%nat then Raise ValueError
        else Ok (digits_value 0 s)
      else Raise ValueError
  end.

(** [str(n)], as used by the f-strings.  CPython applies the same limit
    of [max_str_digits] digits to it; the integers the script writes come
    from [int] or lie between 0 and one that does, and stay within it. *)

Definition str (n : Z) : string := NilZero.string_of_int (Z.to_int n).

(** [len(l)] and [l[i]]: a negative index counts from the end. *)

Definition len {A : Type} (l : list A) : Z := Z.of_nat (List.length l).

Definition index {A : Type} (l : list A) (i : Z) : res A :=
  let j := if i <? 0 then len l + i else i in
  if j <? 0 then Raise IndexError
  else match nth_error l (Z.to_nat j) with
       | Some a => Ok a
       | None => Raise IndexError
       end.

(** [range(a, b)]. *)

Definition range (a b : Z) : list Z :=
  map (fun k => a + Z.of_nat k) (seq 0 (Z.to_nat (b - a))).

(** [d.get(k)] on a dict written as the list of its items. *)

Fixpoint get {V : Type} (d : list (string * V)) (k : string) : option V :=
  match d with
  | [] => None
  | (k', v) :: d' => if String.eqb k' k then Some v else get d' k
  end.

End Py.

Import Py.

Notation "x <- c ;; k" := (bind c (fun x => k))
  (at level 61, c at next level, right associativity).

(** ** The matcher of the [re] module

    The fragment of the pattern language the script uses: literals,
    classes, sequencing, a greedy optional, greedy repetition of a class,
    capturing groups, and the anchors.  The matcher backtracks the way
    [sre] does: a greedy construct tries its longest alternative first and
    gives characters back while the rest of the pattern fails. *)

Module Re.

Inductive regex : Type :=
| Chr (c : ascii)
| Cls (p : ascii -> bool)
| Seq (r1 r2 : regex)
| Opt (r : regex)
| Star (p : ascii -> bool)
| Plus (p : ascii -> bool)
| Grp (i : nat) (r : regex)
| Bol
| Eol.

(** Group [i] is [None] until the group has taken part in the match. *)
Definition groups : Type := nat -> option string.

Definition no_groups : groups := fun _ => None.

Definition set_group (i : nat) (v : string) (g : groups) : groups :=
  fun j => if Nat.eqb j i then Some v else g j.

(** The first [n] characters of [s]. *)
Fixpoint take (n : nat) (s : string) : string :=
  match n, s with
  | S n', String c s' => String c (take n' s')
  | _, _ => EmptyString
  end.

Section Matcher.
Context {R : Type}.

(** One or more characters of class [p], longest run first. *)
Fixpoint rep (p : ascii -> bool) (pos : nat) (s : string)
         (k : nat -> string -> option R) : option R :=
  match s with
  | EmptyString => None
  | String c s' =>
      if p c then
        match rep p (S pos) s' k with
        | Some r => Some r
        | None => k (S pos) s'
        end
      else None
  end.

Fixpoint run (r : regex) (pos : nat) (s : string) (g : groups)
         (k : nat -> string -> groups -> option R) : option R :=
  match r with
  | Chr c =>
      match s with
      | String c' s' => if Ascii.eqb c' c then k (S pos) s' g else None
      | EmptyString => None
      end
  | Cls p =>
      match s with
      | String c' s' => if p c' then k (S pos) s' g else None
      | EmptyString => None
      end
  | Seq r1 r2 => run r1 pos s g (fun pos' s' g' => run r2 pos' s' g' k)
  | Opt r1 =>
      match run r1 pos s g k with
      | Some res => Some res
      | None => k pos s g
      end
  | Star p =>
      match rep p pos s (fun pos' s' => k pos' s' g) with
      | Some res => Some res
      | None => k pos s g
      end
  | Plus p => rep p pos s (fun pos' s' => k pos' s' g)
  | Grp i r1 =>
      run r1 pos s g
          (fun pos' s' g' => k pos' s' (set_group i (take (pos' - pos) s) g'))
  | Bol => if Nat.eqb pos 0 then k pos s g else None
  | Eol =>
      match s with
      | EmptyString => k pos s g
      | String c EmptyString => if Ascii.eqb c "010" then k pos s g else None
      | _ => None
      end
  end.
End Matcher.

(** The match of [r] at position [pos], where [s] is the rest of the
    subject from there: the end position and the groups. *)
Definition match_at (r : regex) (pos : nat) (s : string) : option (nat * groups) :=
  run r pos s no_groups (fun pos' _ g => Some (pos', g)).

(** [re.match(r, s)]. *)
Definition re_match (r : regex) (s : string) : option (nat * groups) :=
  match_at r 0 s.

(** [re.sub(r, repl, s)] for a replacement without group references:
    leftmost matches, not overlapping.  [skip] counts the characters
    still covered by the match found last. *)
Fixpoint sub_from (r : regex) (repl : string) (skip pos : nat) (s : string) : string :=
  match s with
  | EmptyString =>
      match skip, match_at r pos s with
      | O, Some _ => repl
      | _, _ => EmptyString
      end
  | String c s' =>
      match skip with
      | S skip' => sub_from r repl skip' (S pos) s'
      | O =>
          match match_at r pos s with
          | Some (e, _) =>
              match (e - pos)%nat with
              | O => repl ++ String c (sub_from r repl 0 (S pos) s')
              | S n => repl ++ sub_from r repl n (S pos) s'
              end
          | None => String c (sub_from r repl 0 (S pos) s')
          end
      end
  end.

Definition re_sub (r : regex) (repl : string) (s : string) : string :=
  sub_from r repl 0 0 s.

End Re.

Import Re.

(** ** The script *)


(** [BOOK_ABBREV]: full book names to the abbreviations of the KJV JSON. *)
Definition BOOK_ABBREV : list (string * string) :=
  [ ("Genesis", "gn"); ("Exodus", "ex"); ("Leviticus", "lv"); ("Numbers", "nm");
    ("Deuteronomy", "dt");
    ("Joshua", "js"); ("Judges", "jd"); ("Ruth", "rt"); ("1 Samuel", "1sm");
    ("2 Samuel", "2sm");
    ("1 Kings", "1kgs"); ("2 Kings", "2kgs"); ("1 Chronicles", "1chr");
    ("2 Chronicles", "2chr");
    ("Ezra", "ezr"); ("Nehemiah", "neh"); ("Esther", "est"); ("Job", "jb");
    ("Psalm", "ps"); ("Psalms", "ps");
    ("Proverbs", "prv"); ("Ecclesiastes", "eccl"); ("Song of Solomon", "sng");
    ("Isaiah", "is");
    ("Jeremiah", "jer"); ("Lamentations", "lam"); ("Ezekiel", "ezk"); ("Daniel", "dn");
    ("Hosea", "hs"); ("Joel", "jl"); ("Amos", "am"); ("Obadiah", "ob"); ("Jonah", "jnh");
    ("Micah", "mi"); ("Nahum", "na"); ("Habakkuk", "hb"); ("Zephaniah", "zep");
    ("Haggai", "hg");
    ("Zechariah", "zec"); ("Malachi", "mal");
    ("Matthew", "mt"); ("Mark", "mk"); ("Luke", "lk"); ("John", "jn");
    ("Acts", "act"); ("Romans", "rom"); ("1 Corinthians", "1cor");
    ("2 Corinthians", "2cor");
    ("Galatians", "gal"); ("Ephesians", "eph"); ("Philippians", "phi");
    ("Colossians", "col");
    ("1 Thessalonians", "1th"); ("2 Thessalonians", "2th"); ("1 Timothy", "1tm");
    ("2 Timothy", "2tm");
    ("Titus", "ti"); ("Philemon", "phm"); ("Hebrews", "heb"); ("James", "jas");
    ("1 Peter", "1pt"); ("2 Peter", "2pt"); ("1 John", "1jn"); ("2 John", "2jn");
    ("3 John", "3jn");
    ("Jude", "jude"); ("Revelation", "rv") ].

(** The dict returned by [parse_verse_reference]. *)
Record Reference : Type := {
  book : string;
  chapter : Z;
  start_verse : Z;
  end_verse : Z
}.

(** An item of [extracted]. *)
Record ExtractedVerse : Type := {
  reference : string;
  text : string
}.

(** An item of [output["questions"]]. *)
Record Question : Type := {
  id : Z;
  verse_reference : string;
  verse_text : string;
  question : string;
  correct_answer : string;
  options : list string
}.

(** A book entry of the KJV JSON; [None] is a key that is not there. *)
Record BookEntry : Type := {
  abbrev : option string;
  chapters : option (list (list string))
}.

(** What [extract_verses_from_kjv] has built and printed so far. *)
Record State : Type := {
  extracted : list ExtractedVerse;
  out : list string
}.

Definition print (st : State) (line : string) : State :=
  {| extracted := extracted st; out := out st ++ [line] |}.

Definition append (st : State) (v : ExtractedVerse) : State :=
  {| extracted := extracted st ++ [v]; out := out st |}.

Definition alpha_or_space (c : ascii) : bool := isalpha c || isspace c.

(** [r'^((?:\d\s)?[A-Za-z\s]+)\s+(\d+):(\d+)(?:-(\d+))?$'] *)
Definition reference_pattern : regex :=
  Seq Bol
 (Seq (Grp 1 (Seq (Opt (Seq (Cls isdigit) (Cls isspace))) (Plus alpha_or_space)))
 (Seq (Plus isspace)
 (Seq (Grp 2 (Plus isdigit))
 (Seq (Chr ":")
 (Seq (Grp 3 (Plus isdigit))
 (Seq (Opt (Seq (Chr "-") (Grp 4 (Plus isdigit))))
      Eol)))))).

(** [r'\{[^}]*\}'] *)
Definition annotation_pattern : regex :=
  Seq (Chr "{") (Seq (Star (fun c => negb (Ascii.eqb c "}"))) (Chr "}")).

(** A method call or [int] on a group: [None] has no [strip], and [int(None)]
    is a type error. *)
Definition group_strip (v : option string) : res string :=
  match v with
  | Some s => Ok (strip s)
  | None => Raise AttributeError
  end.

Definition group_int (v : option string) : res Z :=
  match v with
  | Some s => int s
  | None => Raise TypeError
  end.

(** The truth value of a group. *)
Definition truthy (v : option string) : bool :=
  match v with
  | Some (String _ _) => true
  | _ => false
  end.

Definition parse_verse_reference (ref : string) : res (option Reference) :=
  match re_match reference_pattern (strip ref) with
  | None => Ok None
  | Some (_, g) =>
      book <- group_strip (g 1%nat) ;;
      chapter <- group_int (g 2%nat) ;;
      start_verse <- group_int (g 3%nat) ;;
      end_verse <- (if truthy (g 4%nat) then group_int (g 4%nat) else Ok start_verse) ;;
      Ok (Some {| book := book; chapter := chapter;
                  start_verse := start_verse; end_verse := end_verse |})
  end.

(** The clean-up of a verse text: annotations removed, then stripped. *)
Definition clean (verse_text : string) : string :=
  strip (re_sub annotation_pattern "" verse_text).

(** The loop over [range(start_verse, end_verse + 1)]. *)
Fixpoint verse_loop (parsed : Reference) (chapter_verses : list string)
         (verse_nums : list Z) (st : State) : res State :=
  match verse_nums with
  | [] => Ok st
  | verse_num :: rest =>
      if verse_num - 1 <? len chapter_verses then
        verse_text <- index chapter_verses (verse_num - 1) ;;
        verse_loop parsed chapter_verses rest
          (append st {| reference := book parsed ++ " " ++ str (chapter parsed)
                                       ++ ":" ++ str verse_num;
                        text := clean verse_text |})
      else
        verse_loop parsed chapter_verses rest
          (print st ("Warning: Verse " ++ str verse_num ++ " not found in "
                       ++ book parsed ++ " " ++ str (chapter parsed)))
  end.

(** [book_entry.get('abbrev') == book_abbrev] *)
Definition abbrev_is (book_entry : BookEntry) (book_abbrev : string) : bool :=
  match abbrev book_entry with
  | Some a => String.eqb a book_abbrev
  | None => false
  end.

(** [book_entry.get('chapters', [])] *)
Definition chapters_of (book_entry : BookEntry) : list (list string) :=
  match chapters book_entry with
  | Some cs => cs
  | None => []
  end.

(** The body run for the book entry that matches, up to its [break]. *)
Definition book_body (parsed : Reference) (book_entry : BookEntry) (st : State)
  : res State :=
  let chapters := chapters_of book_entry in
  if chapter parsed - 1 <? len chapters then
    chapter_verses <- index chapters (chapter parsed - 1) ;;
    verse_loop parsed chapter_verses
      (range (start_verse parsed) (end_verse parsed + 1)) st
  else
    Ok (print st ("Warning: Chapter " ++ str (chapter parsed) ++ " not found in "
                    ++ book parsed)).

(** The loop over [kjv_data]; the boolean is [book_found]. *)
Fixpoint book_loop (parsed : Reference) (book_abbrev : string)
         (kjv_data : list BookEntry) (st : State) : res (bool * State) :=
  match kjv_data with
  | [] => Ok (false, st)
  | book_entry :: rest =>
      if abbrev_is book_entry book_abbrev then
        st' <- book_body parsed book_entry st ;;
        Ok (true, st')
      else book_loop parsed book_abbrev rest st
  end.

(** One iteration of the loop over [references].  [not book_abbrev] holds
    of [None] and of the empty string. *)
Definition process_reference (kjv_data : list BookEntry) (st : State) (ref : string)
  : res State :=
  parsed <- parse_verse_reference ref ;;
  match parsed with
  | None => Ok (print st ("Warning: Could not parse reference: " ++ ref))
  | Some parsed =>
      match get BOOK_ABBREV (book parsed) with
      | Some (String _ _ as book_abbrev) =>
          found <- book_loop parsed book_abbrev kjv_data st ;;
          let '(book_found, st') := found in
          if book_found then Ok st'
          else Ok (print st' ("Warning: Book not found in KJV data: " ++ book parsed))
      | _ => Ok (print st ("Warning: Unknown book: " ++ book parsed))
      end
  end.

Fixpoint reference_loop (kjv_data : list BookEntry) (references : list string)
         (st : State) : res State :=
  match references with
  | [] => Ok st
  | ref :: rest =>
      st' <- process_reference kjv_data st ref ;;
      reference_loop kjv_data rest st'
  end.

Definition initial : State := {| extracted := []; out := [] |}.

Definition extract_verses_from_kjv (kjv_data : list BookEntry)
           (references : list string) : res State :=
  reference_loop kjv_data references initial.

(** The loop of [main] over [enumerate(extracted_verses, 1)]. *)
Fixpoint questions_from (idx : Z) (extracted_verses : list ExtractedVerse)
  : list Question :=
  match extracted_verses with
  | [] => []
  | verse_data :: rest =>
      {| id := idx;
         verse_reference := reference verse_data;
         verse_text := text verse_data;
         question := "What does " ++ reference verse_data ++ " say?";
         correct_answer := text verse_data;
         options := [] |} :: questions_from (idx + 1) rest
  end.

Definition build_questions (extracted_verses : list ExtractedVerse) : list Question :=
  questions_from 1 extracted_verses.

(** [main], from the loaded corpus to [output["questions"]].  The script
    runs it on its constant [POPULAR_VERSES]; here the list of references
    is an argument. *)
Definition main_questions (kjv_data : list BookEntry) (references : list string)
  : res (list Question) :=
  st <- extract_verses_from_kjv kjv_data references ;;
  Ok (build_questions (extracted st)).


(** ** Vocabulary of the statements *)

(** A small corpus for the worked examples: Genesis with two chapters,
    the second one empty, and John with three. *)
Definition kjv_sample : list BookEntry :=
  [ {| abbrev := Some "gn";
       chapters := Some [ ["In the beginning {note} God"; " second verse "] ; [] ] |};
    {| abbrev := Some "jn";
       chapters := Some [ ["a"]; ["b"]; ["v1"; "v2"; "{x}v3"] ] |} ].

Definition newline : string := String "010" EmptyString.

(** What a pattern matches, read declaratively.
    [matches r pos s1 s2 g g']: at position [pos], with [s2] following,
    [r] can match exactly [s1] and turn the groups [g] into [g'].  The
    reading has no priorities: it says which matches exist, not which one
    the matcher finds first. *)
Fixpoint matches (r : regex) (pos : nat) (s1 s2 : string) (g g' : groups) : Prop :=
  match r with
  | Chr c => s1 = String c EmptyString /\ g' = g
  | Cls p => exists c, p c = true /\ s1 = String c EmptyString /\ g' = g
  | Seq r1 r2 =>
      exists u v gm, s1 = u ++ v /\ matches r1 pos u (v ++ s2) g gm
                     /\ matches r2 (pos + String.length u)%nat v s2 gm g'
  | Opt r1 => matches r1 pos s1 s2 g g' \/ (s1 = EmptyString /\ g' = g)
  | Star p => all p s1 = true /\ g' = g
  | Plus p => s1 <> EmptyString /\ all p s1 = true /\ g' = g
  | Grp i r1 => exists gm, matches r1 pos s1 s2 g gm /\ g' = set_group i s1 gm
  | Bol => pos = 0%nat /\ s1 = EmptyString /\ g' = g
  | Eol => s1 = EmptyString /\ (s2 = EmptyString \/ s2 = newline) /\ g' = g
  end.

(** [s] does not begin with a character of class [p]. *)
Definition stops (p : ascii -> bool) (s : string) : Prop :=
  match s with
  | EmptyString => True
  | String c _ => p c = false
  end.

Definition not_colon (c : ascii) : bool := negb (Ascii.eqb c ":").

Definition not_close (c : ascii) : bool := negb (Ascii.eqb c "}").

(** The parts of a reference.  A book is a non-empty run of letters and
    white space, possibly after one digit and one white space character;
    a gap is a non-empty run of white space; a number is a non-empty run
    of digits. *)
Definition is_book (b : string) : Prop :=
  (b <> EmptyString /\ all alpha_or_space b = true)
  \/ (exists d w b', b = String d (String w b') /\ isdigit d = true /\ isspace w = true
                     /\ b' <> EmptyString /\ all alpha_or_space b' = true).

Definition is_gap (w : string) : Prop := w <> EmptyString /\ all isspace w = true.

Definition is_number (n : string) : Prop := n <> EmptyString /\ all isdigit n = true.

(** A numeral [int] converts: no longer than the limit. *)
Definition within_limit (n : string) : Prop :=
  (String.length n <= max_str_digits)%nat.

Definition tail_within_limit (x : option string) : Prop :=
  match x with
  | Some y => within_limit y
  | None => True
  end.

(** The numeral of [n] digits 1. *)
Definition ones (n : nat) : string := String.concat "" (List.repeat "1"%string n).

(** The optional [-<EndVerse>] and the fourth group. *)
Definition is_tail (tl : string) (e : option string) : Prop :=
  (tl = EmptyString /\ e = None)
  \/ (exists x, tl = ("-" ++ x)%string /\ is_number x /\ e = Some x).

(** The shape of a reference, in the words of the specification:
    [<Book> <Chapter>:<Verse>] or [<Book> <Chapter>:<StartVerse>-<EndVerse>].
    The book may begin with a numeral and a space and is otherwise made of
    letters and white space; white space separates it from the chapter;
    the rest is numeric, with one colon and at most one hyphen. *)
Definition single_verse_shape (t : string) : Prop :=
  exists b w c v,
    t = (b ++ w ++ c ++ ":" ++ v)%string
    /\ is_book b /\ is_gap w /\ is_number c /\ is_number v.

Definition verse_range_shape (t : string) : Prop :=
  exists b w c v e,
    t = (b ++ w ++ c ++ ":" ++ v ++ "-" ++ e)%string
    /\ is_book b /\ is_gap w /\ is_number c /\ is_number v /\ is_number e.

Definition reference_shape (t : string) : Prop :=
  single_verse_shape t \/ verse_range_shape t.

(** The reference read off the parts of a matching string. *)
Definition reference_of (b c v : string) (x : option string) : Reference :=
  {| book := strip b;
     chapter := digits_value 0 c;
     start_verse := digits_value 0 v;
     end_verse := match x with
                  | Some y => digits_value 0 y
                  | None => digits_value 0 v
                  end |}.

(** The first book entry with the abbreviation, as the loop over
    [kjv_data] finds it. *)
Definition find_book (kjv_data : list BookEntry) (book_abbrev : string)
  : option BookEntry :=
  find (fun book_entry => abbrev_is book_entry book_abbrev) kjv_data.

(** What a run adds to the state it starts from. *)
Definition join (st d : State) : State :=
  {| extracted := extracted st ++ extracted d; out := out st ++ out d |}.

(** A computation that only appends: from any state it does what it does
    from the empty one, after what was there. *)
Definition framed (c : State -> res State) : Prop :=
  forall st, c st = match c initial with
                    | Ok d => Ok (join st d)
                    | Raise e => Raise e
                    end.

(** The verses one reference contributes. *)
Definition resolved (kjv_data : list BookEntry) (ref : string) : list ExtractedVerse :=
  match process_reference kjv_data initial ref with
  | Ok d => extracted d
  | Raise _ => []
  end.

(** The test of the verse loop on a verse number, the text fetched for
    it, and the record and the warning built from it. *)
Definition in_chapter (chapter_verses : list string) (verse_num : Z) : bool :=
  verse_num - 1 <? len chapter_verses.

Definition text_at (chapter_verses : list string) (verse_num : Z) : string :=
  match index chapter_verses (verse_num - 1) with
  | Ok verse_text => verse_text
  | Raise _ => EmptyString
  end.

Definition verse_of (parsed : Reference) (chapter_verses : list string)
           (verse_num : Z) : ExtractedVerse :=
  {| reference := book parsed ++ " " ++ str (chapter parsed) ++ ":" ++ str verse_num;
     text := clean (text_at chapter_verses verse_num) |}.

Definition warning_of (parsed : Reference) (verse_num : Z) : string :=
  "Warning: Verse " ++ str verse_num ++ " not found in "
    ++ book parsed ++ " " ++ str (chapter parsed).

(** [s] has the character [x]. *)
Fixpoint has (x : ascii) (s : string) : bool :=
  match s with
  | EmptyString => false
  | String c s' => Ascii.eqb c x || has x s'
  end.

(** No opening brace of [s] has a closing brace after it: the annotation
    pattern matches nowhere in [s]. *)
Fixpoint no_pair (s : string) : bool :=
  match s with
  | EmptyString => true
  | String c s' => (negb (Ascii.eqb c "{") || negb (has "}" s')) && no_pair s'
  end.

(** An extracted verse that comes from the corpus: its reference is
    written [{book} {chapter}:{verse}] and its text is a verse string of
    some chapter of some book entry, cleaned. *)
Definition from_corpus (kjv_data : list BookEntry) (v : ExtractedVerse) : Prop :=
  exists (r : Reference) (verse_num : Z) book_entry chapter_verses raw,
    In book_entry kjv_data /\ In chapter_verses (chapters_of book_entry)
    /\ In raw chapter_verses
    /\ reference v = (book r ++ " " ++ str (chapter r) ++ ":" ++ str verse_num)%string
    /\ text v = clean raw.

(** A corpus in which every book entry has a chapter and every chapter a
    verse. *)
Definition populated (kjv_data : list BookEntry) : Prop :=
  forall book_entry, In book_entry kjv_data ->
    chapters_of book_entry <> []
    /\ forall chapter_verses, In chapter_verses (chapters_of book_entry) ->
                              chapter_verses <> [].

(** A reference is safe when, if it parses, neither its chapter nor its
    start verse is 0: no fetch then counts from the end of a list. *)
Definition safe_reference (ref : string) : bool :=
  match parse_verse_reference ref with
  | Ok (Some r) => (1 <=? chapter r) && (1 <=? start_verse r)
  | Ok None => true
  | Raise _ => false
  end.

(** The number of verse numbers a reference ranges over; none when it
    does not parse or ends before it starts. *)
Definition span (ref : string) : nat :=
  match parse_verse_reference ref with
  | Ok (Some r) => Z.to_nat (end_verse r + 1 - start_verse r)
  | _ => 0%nat
  end.

(** A corpus without an empty chapter, for the worked examples. *)
Definition kjv_small : list BookEntry :=
  [ {| abbrev := Some "gn"; chapters := Some [ ["In the beginning"; "And the earth"] ] |};
    {| abbrev := Some "jn"; chapters := Some [ ["a"]; ["b"]; ["v1"; "v2"; "{x}v3"] ] |} ].

(** * Facts *)

(** ** Strings *)

Section StringFacts.

Local Open Scope nat_scope.

Lemma str_app_nil_r (s : string) : (s ++ "")%string = s.
Proof. induction s; simpl; congruence. Qed.

Lemma str_app_assoc (a b c : string) : ((a ++ b) ++ c)%string = (a ++ b ++ c)%string.
Proof. induction a; simpl; congruence. Qed.

Lemma str_length_app (a b : string) :
  String.length (a ++ b) = String.length a + String.length b.
Proof. induction a; simpl; congruence. Qed.

Lemma str_all_app (p : ascii -> bool) (a b : string) :
  all p (a ++ b) = all p a && all p b.
Proof.
  induction a as [|c a IH]; simpl; [reflexivity|].
  rewrite IH. now rewrite andb_assoc.
Qed.

Lemma all_weaken (p q : ascii -> bool) (s : string) :
  (forall c, p c = true -> q c = true) -> all p s = true -> all q s = true.
Proof.
  intros Hpq. induction s as [|c s IH]; simpl; [reflexivity|].
  intros H. apply andb_true_iff in H as [Hc Hs].
  apply andb_true_iff. split; auto.
Qed.

Lemma str_take_app (a b : string) : take (String.length a) (a ++ b) = a.
Proof. induction a; simpl; [now destruct b | congruence]. Qed.

Lemma str_take_app_at (pos : nat) (a b : string) :
  take (pos + String.length a - pos) (a ++ b) = a.
Proof.
  replace (pos + String.length a - pos) with (String.length a) by lia.
  apply str_take_app.
Qed.


Lemma str_app_eq_nil (a b : string) :
  (a ++ b)%string = EmptyString -> a = EmptyString /\ b = EmptyString.
Proof. destruct a; simpl; [auto | discriminate]. Qed.

(** Two ways of cutting one string differ by a middle part. *)
Lemma str_app_eq_app (a b a' b' : string) :
  (a ++ b)%string = (a' ++ b')%string ->
  exists m, (a = (a' ++ m)%string /\ b' = (m ++ b)%string)
            \/ (a' = (a ++ m)%string /\ b = (m ++ b')%string).
Proof.
  revert a'. induction a as [|c a IH]; intros a' H; simpl in H.
  - exists a'. right. auto.
  - destruct a' as [|c' a']; simpl in H.
    + exists (String c a). left. auto.
    + injection H as -> H. destruct (IH _ H) as [m [[-> ->]|[-> ->]]];
        exists m; [left | right]; auto.
Qed.

Lemma last_char (s : string) :
  s <> EmptyString -> exists s0 x, s = (s0 ++ String x "")%string.
Proof.
  induction s as [|c s IH]; intros H; [congruence|].
  destruct s as [|c' s].
  - exists EmptyString, c. reflexivity.
  - destruct IH as (s0 & x & E); [discriminate|].
    exists (String c s0), x. simpl. now rewrite <- E.
Qed.

Lemma str_app_last_inj (a b : string) (x y : ascii) :
  (a ++ String x "")%string = (b ++ String y "")%string -> a = b /\ x = y.
Proof.
  revert b. induction a as [|c a IH]; intros [|d b] H; simpl in H.
  - injection H; auto.
  - injection H as _ H. destruct b; discriminate.
  - injection H as _ H. destruct a; discriminate.
  - injection H as -> H. destruct (IH _ H) as [-> ->]. auto.
Qed.

(** The last character of a string is the last character of any
    non-empty tail cut from it. *)
Lemma str_app_last_tail (a b m : string) (x : ascii) :
  (a ++ String x "")%string = (b ++ m)%string -> m <> EmptyString ->
  exists m0, m = (m0 ++ String x "")%string.
Proof.
  intros H Hm. destruct (last_char m Hm) as (m0 & y & ->).
  rewrite <- str_app_assoc in H. apply str_app_last_inj in H as [_ ->]. now exists m0.
Qed.

(** A string cut at the first character outside a class: the cut is
    unique. *)
Lemma cut_at_sep (q : ascii -> bool) (sep : ascii) (x x' y y' : string) :
  q sep = false -> all q x = true -> all q x' = true ->
  (x ++ String sep y)%string = (x' ++ String sep y')%string -> x = x' /\ y = y'.
Proof.
  intros Hsep. revert x'. induction x as [|c x IH]; intros [|c' x'] Hx Hx' H;
    simpl in *.
  - injection H; auto.
  - injection H as <- _. rewrite Hsep in Hx'. discriminate.
  - injection H as -> _. rewrite Hsep in Hx. discriminate.
  - injection H as -> H.
    apply andb_true_iff in Hx as [_ Hx]. apply andb_true_iff in Hx' as [_ Hx'].
    destruct (IH _ Hx Hx' H) as [-> ->]. auto.
Qed.

Lemma cut_run (p : ascii -> bool) (v v' t t' : string) :
  all p v = true -> all p v' = true -> stops p t -> stops p t' ->
  (v ++ t)%string = (v' ++ t')%string -> v = v' /\ t = t'.
Proof.
  revert v'. induction v as [|c v IH]; intros [|c' v'] Hv Hv' Ht Ht' H;
    simpl in *.
  - auto.
  - subst t. simpl in Ht. apply andb_true_iff in Hv' as [Hc _]. congruence.
  - subst t'. simpl in Ht'. apply andb_true_iff in Hv as [Hc _]. congruence.
  - injection H as -> H.
    apply andb_true_iff in Hv as [_ Hv]. apply andb_true_iff in Hv' as [_ Hv'].
    destruct (IH _ Hv Hv' Ht Ht' H) as [-> ->]. auto.
Qed.

(** The same from the right: a run of class [p] at the end, after a
    character outside [p]. *)
Lemma cut_run_right (p : ascii -> bool) (a a' c c' : string) (x x' : ascii) :
  all p c = true -> all p c' = true -> p x = false -> p x' = false ->
  ((a ++ String x "") ++ c)%string = ((a' ++ String x' "") ++ c')%string ->
  (a ++ String x "")%string = (a' ++ String x' "")%string /\ c = c'.
Proof.
  intros Hc Hc' Hx Hx' H.
  destruct (str_app_eq_app _ _ _ _ H) as [m [[E1 E2]|[E1 E2]]].
  - destruct m as [|h m].
    + rewrite str_app_nil_r in E1. simpl in E2. auto.
    + destruct (str_app_last_tail _ _ _ _ E1) as [m0 Em]; [discriminate|].
      rewrite E2, Em, str_app_assoc, !str_all_app in Hc'. simpl in Hc'.
      rewrite Hx in Hc'. rewrite andb_false_r in Hc'. discriminate.
  - destruct m as [|h m].
    + rewrite str_app_nil_r in E1. simpl in E2. auto.
    + destruct (str_app_last_tail _ _ _ _ E1) as [m0 Em]; [discriminate|].
      rewrite E2, Em, str_app_assoc, !str_all_app in Hc. simpl in Hc.
      rewrite Hx' in Hc. rewrite andb_false_r in Hc. discriminate.
Qed.

End StringFacts.

(** ** Character classes *)

Ltac by_cases_on_char c :=
  destruct c as [[] [] [] [] [] [] [] []]; vm_compute; intros;
  solve [ reflexivity | discriminate | congruence ].

Section ClassFacts.


Lemma space_not_digit (c : ascii) : isspace c = true -> isdigit c = false.
Proof. by_cases_on_char c. Qed.



Lemma digit_not_colon (c : ascii) : isdigit c = true -> not_colon c = true.
Proof. by_cases_on_char c. Qed.

Lemma letter_or_space_not_colon (c : ascii) :
  alpha_or_space c = true -> not_colon c = true.
Proof. by_cases_on_char c. Qed.

Lemma space_not_colon (c : ascii) : isspace c = true -> not_colon c = true.
Proof. by_cases_on_char c. Qed.

Lemma digit_value_range (c : ascii) :
  isdigit c = true -> 0 <= Z.of_N (code c) - 48 <= 9.
Proof.
  unfold isdigit. intros H. apply andb_true_iff in H as [H1 H2].
  apply N.leb_le in H1, H2. lia.
Qed.

End ClassFacts.

(** ** [strip] *)

Section StripFacts.

Lemma lstrip_head (s : string) (c : ascii) (r : string) :
  lstrip s = String c r -> isspace c = false.
Proof.
  induction s as [|d s IH]; simpl; [discriminate|].
  destruct (isspace d) eqn:E; [exact IH|]. intros H. injection H as <- _. exact E.
Qed.

Lemma lstrip_fixed (c : ascii) (r : string) :
  isspace c = false -> lstrip (String c r) = String c r.
Proof. intros H. simpl. now rewrite H. Qed.

Lemma rstrip_head (s : string) (c : ascii) (r : string) :
  rstrip s = String c r -> exists r', s = String c r'.
Proof.
  destruct s as [|d s]; simpl; [discriminate|].
  destruct (rstrip s); [destruct (isspace d); [discriminate|]|];
    intros H; injection H as <- _; eauto.
Qed.

Lemma rstrip_last (s a : string) (c : ascii) :
  rstrip s = (a ++ String c "")%string -> isspace c = false.
Proof.
  revert a. induction s as [|d s IH]; intros a; simpl.
  - destruct a; discriminate.
  - destruct (rstrip s) as [|h r] eqn:E.
    + destruct (isspace d) eqn:Ed; [destruct a; discriminate|].
      destruct a as [|x a]; simpl; intros H.
      * injection H as <-. exact Ed.
      * injection H as _ H. destruct a; discriminate.
    + destruct a as [|x a]; simpl; intros H; injection H as _ H.
      * discriminate.
      * eapply IH. exact H.
Qed.

Lemma rstrip_spaces (w : string) : all isspace w = true -> rstrip w = EmptyString.
Proof.
  induction w as [|c w IH]; simpl; [reflexivity|].
  intros H. apply andb_true_iff in H as [Hc Hw]. now rewrite IH, Hc.
Qed.

Lemma rstrip_app_spaces (a w : string) :
  all isspace w = true -> rstrip (a ++ w) = rstrip a.
Proof.
  intros Hw. induction a as [|c a IH]; simpl.
  - now apply rstrip_spaces.
  - now rewrite IH.
Qed.

Lemma rstrip_fixed (a : string) (c : ascii) :
  isspace c = false -> rstrip (a ++ String c "") = (a ++ String c "")%string.
Proof.
  intros Hc. induction a as [|d a IH]; simpl.
  - now rewrite Hc.
  - rewrite IH. destruct a; reflexivity.
Qed.

Lemma rstrip_idem (s : string) : rstrip (rstrip s) = rstrip s.
Proof.
  destruct (rstrip s) as [|c r] eqn:E; [reflexivity|].
  destruct (last_char (String c r)) as (a & x & Ea); [discriminate|].
  rewrite Ea. apply rstrip_fixed. apply (rstrip_last s a x). congruence.
Qed.

(** The head of a stripped string is not a space, and neither is its
    last character. *)
Lemma strip_head (s : string) (c : ascii) (r : string) :
  strip s = String c r -> isspace c = false.
Proof.
  unfold strip. intros H. destruct (rstrip_head _ _ _ H) as [r' E].
  eapply lstrip_head. exact E.
Qed.

Lemma strip_last (s a : string) (c : ascii) :
  strip s = (a ++ String c "")%string -> isspace c = false.
Proof. unfold strip. apply rstrip_last. Qed.

Lemma strip_idem (s : string) : strip (strip s) = strip s.
Proof.
  destruct (strip s) as [|c r] eqn:E; [reflexivity|].
  pose proof (strip_head _ _ _ E) as Hc.
  unfold strip at 1. rewrite lstrip_fixed by exact Hc.
  rewrite <- E. unfold strip. apply rstrip_idem.
Qed.

(** Stripping a string that begins with a character other than a
    space only touches its right end. *)
Lemma strip_right (c : ascii) (r : string) :
  isspace c = false -> strip (String c r) = rstrip (String c r).
Proof. intros H. unfold strip. now rewrite lstrip_fixed. Qed.

End StripFacts.

(** ** The matcher against the declarative reading *)

Section MatcherFacts.

Local Open Scope nat_scope.
Context {R : Type}.

Lemma rep_sound (p : ascii -> bool) (s : string) :
  forall pos (k : nat -> string -> option R) res,
    rep p pos s k = Some res ->
    exists s1 s2, s = (s1 ++ s2)%string /\ s1 <> EmptyString /\ all p s1 = true
                  /\ k (pos + String.length s1) s2 = Some res.
Proof.
  induction s as [|c s IH]; intros pos k res; simpl; [discriminate|].
  destruct (p c) eqn:Hc; [|discriminate].
  destruct (rep p (S pos) s k) as [r|] eqn:E.
  - intros H. injection H as ->.
    destruct (IH _ _ _ E) as (s1 & s2 & -> & _ & Hall & Hk).
    exists (String c s1), s2. simpl. rewrite Hc, Hall.
    repeat split; [discriminate|].
    now rewrite Nat.add_succ_r.
  - intros H. exists (String c ""), s. simpl. rewrite Hc.
    repeat split; [discriminate|]. now rewrite Nat.add_1_r.
Qed.

Lemma rep_complete (p : ascii -> bool) (s1 s2 : string) :
  forall pos (k : nat -> string -> option R) res,
    s1 <> EmptyString -> all p s1 = true ->
    k (pos + String.length s1) s2 = Some res ->
    exists res', rep p pos (s1 ++ s2) k = Some res'.
Proof.
  induction s1 as [|c s1 IH]; intros pos k res Hne Hall Hk; [congruence|].
  simpl in *. apply andb_true_iff in Hall as [Hc Hall]. rewrite Hc.
  destruct s1 as [|d s1].
  - simpl in *. rewrite Nat.add_1_r in Hk.
    destruct (rep p (S pos) s2 k); eauto.
  - destruct (IH (S pos) k res) as [res' E]; [discriminate|assumption| |].
    + now rewrite Nat.add_succ_r in Hk.
    + rewrite E. eauto.
Qed.

Lemma run_sound (r : regex) :
  forall pos s g (k : nat -> string -> groups -> option R) res,
    run r pos s g k = Some res ->
    exists s1 s2 g', s = (s1 ++ s2)%string /\ matches r pos s1 s2 g g'
                     /\ k (pos + String.length s1) s2 g' = Some res.
Proof.
  induction r as [c|p|r1 IH1 r2 IH2|r1 IH1|p|p|i r1 IH1| |];
    intros pos s g k res H; simpl in H.
  - destruct s as [|c' s]; [discriminate|].
    destruct (Ascii.eqb c' c) eqn:E; [|discriminate].
    apply Ascii.eqb_eq in E as ->.
    exists (String c ""), s, g. simpl. now rewrite Nat.add_1_r.
  - destruct s as [|c' s]; [discriminate|].
    destruct (p c') eqn:E; [|discriminate].
    exists (String c' ""), s, g. simpl. rewrite Nat.add_1_r.
    repeat split; [exists c'|]; auto.
  - destruct (IH1 _ _ _ _ _ H) as (u & s' & gm & -> & Hu & H2).
    destruct (IH2 _ _ _ _ _ H2) as (v & s2 & g' & -> & Hv & Hk).
    exists (u ++ v)%string, s2, g'. rewrite str_app_assoc, str_length_app, Nat.add_assoc.
    simpl. eauto 8.
  - destruct (run r1 pos s g k) as [res'|] eqn:E.
    + injection H as ->.
      destruct (IH1 _ _ _ _ _ E) as (s1 & s2 & g' & -> & Hm & Hk).
      exists s1, s2, g'. simpl. auto.
    + exists EmptyString, s, g. simpl. rewrite Nat.add_0_r. auto.
  - destruct (rep p pos s (fun pos' s' => k pos' s' g)) as [res'|] eqn:E.
    + injection H as ->.
      destruct (rep_sound _ _ _ _ _ E) as (s1 & s2 & -> & _ & Hall & Hk).
      exists s1, s2, g. simpl. auto.
    + exists EmptyString, s, g. simpl. rewrite Nat.add_0_r. auto.
  - destruct (rep_sound _ _ _ _ _ H) as (s1 & s2 & -> & Hne & Hall & Hk).
    exists s1, s2, g. simpl. auto.
  - destruct (IH1 _ _ _ _ _ H) as (s1 & s2 & gm & -> & Hm & Hk).
    rewrite str_take_app_at in Hk.
    exists s1, s2, (set_group i s1 gm). simpl. eauto.
  - destruct (Nat.eqb pos 0) eqn:E; [|discriminate].
    apply Nat.eqb_eq in E. exists EmptyString, s, g. simpl.
    rewrite Nat.add_0_r. auto.
  - exists EmptyString, s, g. simpl. rewrite Nat.add_0_r.
    destruct s as [|c [|d s]]; [tauto| |discriminate].
    destruct (Ascii.eqb c "010") eqn:E; [|discriminate].
    apply Ascii.eqb_eq in E as ->. unfold newline. tauto.
Qed.

Lemma run_complete (r : regex) :
  forall pos s1 s2 g g' (k : nat -> string -> groups -> option R) res,
    matches r pos s1 s2 g g' ->
    k (pos + String.length s1) s2 g' = Some res ->
    exists res', run r pos (s1 ++ s2) g k = Some res'.
Proof.
  induction r as [c|p|r1 IH1 r2 IH2|r1 IH1|p|p|i r1 IH1| |];
    intros pos s1 s2 g g' k res Hm Hk; simpl in Hm |- *.
  - destruct Hm as [-> ->]. simpl in *. rewrite Ascii.eqb_refl.
    rewrite Nat.add_1_r in Hk. eauto.
  - destruct Hm as (c & Hc & -> & ->). simpl in *. rewrite Hc.
    rewrite Nat.add_1_r in Hk. eauto.
  - destruct Hm as (u & v & gm & -> & Hu & Hv).
    rewrite str_length_app, Nat.add_assoc in Hk.
    destruct (IH2 _ _ _ _ _ _ _ Hv Hk) as [res2 E2].
    rewrite str_app_assoc.
    exact (IH1 _ _ _ _ _ _ _ Hu E2).
  - destruct Hm as [Hm|[-> ->]].
    + destruct (IH1 _ _ _ _ _ _ _ Hm Hk) as [res1 E1]. rewrite E1. eauto.
    + simpl in *. rewrite Nat.add_0_r in Hk.
      destruct (run r1 pos s2 g k); eauto.
  - destruct Hm as [Hall ->]. destruct s1 as [|c s1].
    + simpl in *. rewrite Nat.add_0_r in Hk.
      destruct (rep p pos s2 _); eauto.
    + destruct (rep_complete p (String c s1) s2 pos (fun pos' s' => k pos' s' g) res)
        as [res' E]; [discriminate|assumption|assumption|].
      rewrite E. eauto.
  - destruct Hm as (Hne & Hall & ->).
    exact (rep_complete p s1 s2 pos (fun pos' s' => k pos' s' g) res Hne Hall Hk).
  - destruct Hm as (gm & Hm & ->).
    eapply IH1; [exact Hm|]. simpl. rewrite str_take_app_at. exact Hk.
  - destruct Hm as (-> & -> & ->). simpl in *. eauto.
  - destruct Hm as (-> & Hs2 & ->). simpl in *. rewrite Nat.add_0_r in Hk.
    destruct Hs2 as [->| ->]; simpl; eauto.
Qed.

End MatcherFacts.

(** ** The reference pattern *)

Ltac norm_app :=
  repeat (progress (simpl; rewrite ?str_app_nil_r, ?str_app_assoc)).

Ltac norm_app_in H :=
  repeat (progress (simpl in H; rewrite ?str_app_nil_r, ?str_app_assoc in H)).

Section PatternFacts.

Lemma reference_pattern_inv (t : string) (e : nat) (g : groups) :
  re_match reference_pattern t = Some (e, g) ->
  exists b w c v tl rest,
    t = (b ++ w ++ c ++ ":" ++ v ++ tl ++ rest)%string
    /\ is_book b /\ is_gap w /\ is_number c /\ is_number v
    /\ is_tail tl (g 4%nat)
    /\ (rest = EmptyString \/ rest = newline)
    /\ g 1%nat = Some b /\ g 2%nat = Some c /\ g 3%nat = Some v.
Proof.
  unfold re_match, match_at. intros H.
  apply run_sound in H as (s1 & rest & g' & -> & Hm & Hk).
  injection Hk as _ <-. simpl in Hm.
  destruct Hm as (u0 & t0 & g0 & -> & (_ & -> & ->) & Hm).
  destruct Hm as (b & t1 & g1 & -> & (g1' & Hb & ->) & Hm).
  destruct Hm as (w & t2 & g2 & -> & (Hw1 & Hw2 & ->) & Hm).
  destruct Hm as (c & t3 & g3 & -> & (g3' & (Hc1 & Hc2 & ->) & ->) & Hm).
  destruct Hm as (col & t4 & g4 & -> & (-> & ->) & Hm).
  destruct Hm as (v & t5 & g5 & -> & (g5' & (Hv1 & Hv2 & ->) & ->) & Hm).
  destruct Hm as (tl & t6 & g6 & -> & Htl & (-> & Hrest & Eg)).
  destruct Hb as (pre & ls & gp & -> & Hpre & (Hl1 & Hl2 & ->)).
  assert (Hgp : forall i, gp i = None).
  { destruct Hpre as [Hpre|[_ ->]]; [|reflexivity].
    destruct Hpre as (d & x & gd & _ & (? & _ & _ & ->) & (? & _ & _ & ->)).
    reflexivity. }
  assert (Hg : forall i, i <> 4%nat ->
               g' i = set_group 3 v (set_group 2 c (set_group 1 (pre ++ ls) gp)) i).
  { intros i Hi. rewrite Eg. destruct Htl as [Htl|[_ ->]]; [|reflexivity].
    destruct Htl as (? & x & ? & _ & (_ & ->) & (? & (_ & _ & ->) & ->)).
    unfold set_group at 1.
    destruct (Nat.eqb_spec i 4); [contradiction | reflexivity]. }
  exists (pre ++ ls)%string, w, c, v, tl, rest.
  split; [|repeat split; auto].
  - now norm_app.
  - destruct Hpre as [Hpre|[-> _]]; [|left; auto].
    destruct Hpre as (d & x & gd & -> & (cd & Hd & -> & _) & (cx & Hx & -> & _)).
    right. simpl. eauto 10.
  - rewrite Eg. destruct Htl as [Htl|[-> ->]].
    + destruct Htl as (? & x & ? & -> & (-> & ->) & (? & (Hx1 & Hx2 & ->) & ->)).
      right. exists x. repeat split; auto.
    + left. split; [reflexivity|]. unfold set_group. simpl. apply Hgp.
Qed.

Lemma reference_pattern_ok (b w c v tl : string) (x : option string) :
  is_book b -> is_gap w -> is_number c -> is_number v -> is_tail tl x ->
  exists e g,
    re_match reference_pattern (b ++ w ++ c ++ ":" ++ v ++ tl) = Some (e, g).
Proof.
  intros Hb [Hw1 Hw2] [Hc1 Hc2] [Hv1 Hv2] Htl.
  assert (Hm : exists g', matches reference_pattern 0
                            (b ++ w ++ c ++ ":" ++ v ++ tl ++ "") "" no_groups g').
  { simpl.
    assert (Hb' : exists g1, exists u v0 gm,
               b = (u ++ v0)%string
               /\ ((exists u0 v1 gm0, u = (u0 ++ v1)%string
                      /\ (exists c0, isdigit c0 = true /\ u0 = String c0 ""
                                     /\ gm0 = no_groups)
                      /\ (exists c0, isspace c0 = true /\ v1 = String c0 ""
                                     /\ gm = gm0))
                   \/ u = EmptyString /\ gm = no_groups)
               /\ v0 <> EmptyString /\ all alpha_or_space v0 = true /\ g1 = gm).
    { destruct Hb as [[Hb1 Hb2] | (d & y & b' & -> & Hd & Hy & Hb1 & Hb2)].
      - exists no_groups, EmptyString, b, no_groups. tauto.
      - exists no_groups, (String d (String y "")), b', no_groups.
        repeat split; auto. left.
        exists (String d ""), (String y ""), no_groups. repeat split; eauto. }
    destruct Hb' as (g1 & Hb').
    assert (Htl' : exists g4, matches (Opt (Seq (Chr "-") (Grp 4 (Plus isdigit))))
              (String.length b + String.length w + String.length c + 1
               + String.length v)%nat tl ""
              (set_group 3 v (set_group 2 c (set_group 1 b g1))) g4).
    { destruct Htl as [[-> ->] | (y & -> & [Hy1 Hy2] & ->)]; simpl.
      - eexists. right. split; reflexivity.
      - eexists. left. exists "-"%string, y. eexists.
        split; [reflexivity|]. split; [split; reflexivity|].
        eexists. split; [split; [exact Hy1|split; [exact Hy2|reflexivity]]|].
        reflexivity. }
    destruct Htl' as (g4 & Htl'). simpl in Htl'.
    exists g4, EmptyString. eexists. exists no_groups.
    split; [reflexivity|]. split; [auto|].
    exists b. eexists. eexists. split; [reflexivity|].
    split; [exists g1; split; [exact Hb'|reflexivity]|].
    exists w. eexists. eexists. split; [reflexivity|]. split; [auto|].
    exists c. eexists. eexists. split; [reflexivity|].
    split; [eexists; split; [eauto|reflexivity]|].
    exists ":"%string. eexists. eexists. split; [reflexivity|]. split; [auto|].
    exists v. eexists. eexists. split; [reflexivity|].
    split; [eexists; split; [eauto|reflexivity]|].
    exists tl, EmptyString, g4. split; [reflexivity|].
    split; [|auto]. simpl.
    replace (String.length b + String.length w + String.length c + 1
               + String.length v)%nat
      with (0 + String.length "" + String.length b + String.length w
            + String.length c + String.length ":" + String.length v)%nat
      in Htl' by (simpl; lia).
    exact Htl'. }
  destruct Hm as [g' Hm].
  destruct (run_complete reference_pattern _ _ _ _ _
              (fun pos' _ g => Some (pos', g)) _ Hm eq_refl) as [[e g] E].
  rewrite !str_app_nil_r in E. exists e, g. exact E.
Qed.

Lemma is_book_nonempty (b : string) : is_book b -> b <> EmptyString.
Proof. intros [[H _]|(d & w & b' & -> & _)]; [exact H | discriminate]. Qed.

Lemma is_book_no_colon (b : string) : is_book b -> all not_colon b = true.
Proof.
  intros [[_ H]|(d & w & b' & -> & Hd & Hw & _ & H)].
  - eapply all_weaken; [exact letter_or_space_not_colon | exact H].
  - simpl. rewrite (digit_not_colon _ Hd), (space_not_colon _ Hw). simpl.
    eapply all_weaken; [exact letter_or_space_not_colon | exact H].
Qed.

Lemma is_tail_stops (tl : string) (x : option string) :
  is_tail tl x -> stops isdigit tl.
Proof. intros [[-> _]|(y & -> & _)]; simpl; [exact I | reflexivity]. Qed.

Lemma is_tail_fun (tl : string) (x x' : option string) :
  is_tail tl x -> is_tail tl x' -> x = x'.
Proof.
  intros [[-> ->]|(y & -> & _ & ->)] [[E ->]|(y' & E & _ & ->)];
    try discriminate; [reflexivity|].
  injection E as ->. reflexivity.
Qed.

Lemma is_gap_last (w : string) :
  is_gap w -> exists w0 x, w = (w0 ++ String x "")%string /\ isspace x = true.
Proof.
  intros [Hne Hall]. destruct (last_char w Hne) as (w0 & x & ->).
  exists w0, x. split; [reflexivity|].
  rewrite str_all_app in Hall. apply andb_true_iff in Hall as [_ Hx].
  simpl in Hx. now rewrite andb_true_r in Hx.
Qed.

(** A string has at most one reading as a reference, up to where the
    book ends inside the white space before the chapter. *)
Lemma reading_unique (b w c v tl b' w' c' v' tl' : string) (x x' : option string) :
  (b ++ w ++ c ++ ":" ++ v ++ tl)%string = (b' ++ w' ++ c' ++ ":" ++ v' ++ tl')%string ->
  is_book b -> is_gap w -> is_number c -> is_number v -> is_tail tl x ->
  is_book b' -> is_gap w' -> is_number c' -> is_number v' -> is_tail tl' x' ->
  (b ++ w)%string = (b' ++ w')%string /\ c = c' /\ v = v' /\ tl = tl' /\ x = x'.
Proof.
  intros E Hb Hw Hc Hv Htl Hb' Hw' Hc' Hv' Htl'.
  assert (Hleft : forall b w c, is_book b -> is_gap w -> is_number c ->
                                all not_colon (b ++ w ++ c) = true).
  { intros b0 w0 c0 Hb0 [_ Hw0] [_ Hc0]. rewrite !str_all_app.
    rewrite (is_book_no_colon _ Hb0).
    rewrite (all_weaken _ _ _ space_not_colon Hw0).
    now rewrite (all_weaken _ _ _ digit_not_colon Hc0). }
  assert (E1 : ((b ++ w ++ c) ++ String ":" (v ++ tl))%string
               = ((b' ++ w' ++ c') ++ String ":" (v' ++ tl'))%string).
  { norm_app. exact E. }
  apply (cut_at_sep not_colon) in E1 as [E1 E2]; auto using Hleft.
  destruct Hv as [_ Hv], Hv' as [_ Hv'].
  apply (cut_run isdigit) in E2 as [-> ->];
    eauto using is_tail_stops.
  destruct (is_gap_last _ Hw) as (w0 & y & -> & Hy).
  destruct (is_gap_last _ Hw') as (w0' & y' & -> & Hy').
  destruct Hc as [_ Hc], Hc' as [_ Hc'].
  assert (E3 : (((b ++ w0) ++ String y "") ++ c)%string
               = (((b' ++ w0') ++ String y' "") ++ c')%string).
  { norm_app. norm_app_in E1. exact E1. }
  apply (cut_run_right isdigit) in E3 as [E3 ->];
    auto using space_not_digit.
  rewrite !str_app_assoc in E3.
  repeat split; auto. eapply is_tail_fun; eauto.
Qed.

End PatternFacts.

(** ** [int] on what the pattern captures *)

Section IntFacts.

Lemma int_of_number (n : string) :
  is_number n -> within_limit n -> int n = Ok (digits_value 0 n).
Proof.
  intros [Hne Hall] Hlim. destruct n as [|c n]; [congruence|].
  unfold int. rewrite Hall.
  destruct (Nat.ltb_spec max_str_digits (String.length (String c n)));
    [unfold within_limit in Hlim; lia | reflexivity].
Qed.

Lemma int_too_long (n : string) :
  is_number n -> ~ within_limit n -> int n = Raise ValueError.
Proof.
  intros [Hne Hall] Hlim. destruct n as [|c n]; [congruence|].
  unfold int. rewrite Hall.
  destruct (Nat.ltb_spec max_str_digits (String.length (String c n)));
    [reflexivity | now elim Hlim].
Qed.

Lemma int_inv (n : string) (z : Z) :
  int n = Ok z -> is_number n /\ z = digits_value 0 n.
Proof.
  destruct n as [|c n]; [discriminate|]. unfold int.
  destruct (all isdigit (String c n)) eqn:E; [|discriminate].
  destruct (max_str_digits <? String.length (String c n))%nat; [discriminate|].
  intros H. injection H as <-. repeat split; [discriminate | exact E].
Qed.

Lemma int_inv_limit (n : string) (z : Z) : int n = Ok z -> within_limit n.
Proof.
  destruct n as [|c n]; [discriminate|]. unfold int.
  destruct (all isdigit (String c n)); [|discriminate].
  destruct (Nat.ltb_spec max_str_digits (String.length (String c n)));
    [discriminate|].
  intros _. exact H.
Qed.

(** On a numeral [int] returns or raises [ValueError], by its length. *)
Lemma int_cases (n : string) :
  is_number n ->
  (within_limit n /\ int n = Ok (digits_value 0 n))
  \/ (~ within_limit n /\ int n = Raise ValueError).
Proof.
  intros Hn. unfold within_limit.
  destruct (Nat.le_gt_cases (String.length n) max_str_digits) as [H|H].
  - left. split; [exact H|]. now apply int_of_number.
  - right. assert (Hl : ~ within_limit n) by (unfold within_limit; lia).
    split; [exact Hl|]. now apply int_too_long.
Qed.

Lemma digits_value_nonneg (s : string) :
  forall acc, all isdigit s = true -> 0 <= acc -> 0 <= digits_value acc s.
Proof.
  induction s as [|c s IH]; intros acc Hall Hacc; cbn [digits_value];
    [exact Hacc|].
  simpl in Hall. apply andb_true_iff in Hall as [Hc Hs].
  apply IH; [exact Hs|]. pose proof (digit_value_range c Hc). lia.
Qed.

Lemma int_nonneg (n : string) (z : Z) : int n = Ok z -> 0 <= z.
Proof.
  intros H. apply int_inv in H as [[_ Hall] ->].
  apply digits_value_nonneg; [exact Hall | lia].
Qed.

End IntFacts.

(** ** [parse_verse_reference] *)

Section ParseFacts.

(** What the parser does with a match: the three conversions, in the
    order of the source. *)
Lemma parse_of_groups (ref b c v tl : string) (e : nat) (g : groups) :
  re_match reference_pattern (strip ref) = Some (e, g) ->
  g 1%nat = Some b -> g 2%nat = Some c -> g 3%nat = Some v ->
  is_tail tl (g 4%nat) ->
  parse_verse_reference ref
  = (chapter <- int c ;;
     start_verse <- int v ;;
     end_verse <- match g 4%nat with
                  | Some y => int y
                  | None => Ok start_verse
                  end ;;
     Ok (Some {| book := strip b; chapter := chapter;
                 start_verse := start_verse; end_verse := end_verse |})).
Proof.
  intros Hm H1 H2 H3 Htl. unfold parse_verse_reference.
  rewrite Hm, H1, H2, H3. cbn [group_strip group_int bind].
  destruct (int c) as [cn|ec]; [|reflexivity].
  destruct (int v) as [vn|ev]; [|reflexivity]. cbn [bind].
  destruct Htl as [[_ ->]|(y & _ & [Hne _] & ->)]; [reflexivity|].
  destruct y as [|h y]; [congruence|]. reflexivity.
Qed.

Lemma parse_of_groups_ok (ref b c v tl : string) (e : nat) (g : groups) :
  re_match reference_pattern (strip ref) = Some (e, g) ->
  g 1%nat = Some b -> g 2%nat = Some c -> g 3%nat = Some v ->
  is_number c -> is_number v -> is_tail tl (g 4%nat) ->
  within_limit c -> within_limit v -> tail_within_limit (g 4%nat) ->
  parse_verse_reference ref = Ok (Some (reference_of b c v (g 4%nat))).
Proof.
  intros Hm H1 H2 H3 Hc Hv Htl Lc Lv Lt.
  rewrite (parse_of_groups ref b c v tl e g Hm H1 H2 H3 Htl).
  rewrite (int_of_number _ Hc Lc), (int_of_number _ Hv Lv). cbn [bind].
  unfold reference_of.
  destruct Htl as [[_ E]|(y & _ & Hy & E)]; rewrite E in *; [reflexivity|].
  simpl in Lt. now rewrite (int_of_number _ Hy Lt).
Qed.

(** The book of a reading, stripped, ignores the white space that
    follows it. *)
Lemma strip_book (t b w rest : string) (c : ascii) (r : string) :
  t = String c r -> isspace c = false ->
  t = ((b ++ w) ++ rest)%string -> is_book b -> all isspace w = true ->
  strip b = rstrip (b ++ w).
Proof.
  intros -> Hc E Hb Hw. rewrite (rstrip_app_spaces _ _ Hw).
  destruct b as [|h b]; [now apply is_book_nonempty in Hb|].
  simpl in E. injection E as <- _. now apply strip_right.
Qed.

(** A match of the stripped input is a reading of it. *)
Lemma match_reading (ref : string) (e : nat) (g : groups) :
  re_match reference_pattern (strip ref) = Some (e, g) ->
  exists b w c v tl,
    strip ref = (b ++ w ++ c ++ ":" ++ v ++ tl)%string
    /\ is_book b /\ is_gap w /\ is_number c /\ is_number v
    /\ is_tail tl (g 4%nat)
    /\ g 1%nat = Some b /\ g 2%nat = Some c /\ g 3%nat = Some v.
Proof.
  intros Hm.
  destruct (reference_pattern_inv _ _ _ Hm)
    as (b & w & c & v & tl & rest & E & Hb & Hw & Hc & Hv & Htl & Hrest
        & H1 & H2 & H3).
  assert (rest = EmptyString) as ->.
  { destruct Hrest as [->| ->]; [reflexivity|].
    assert (E' : strip ref = ((b ++ w ++ c ++ ":" ++ v ++ tl) ++ newline)%string)
      by (rewrite E; now norm_app).
    apply strip_last in E'. discriminate. }
  rewrite str_app_nil_r in E.
  exists b, w, c, v, tl. auto 10.
Qed.

(** A parsed reference comes from a reading whose numerals are within
    the limit of [int]. *)
Lemma parse_inv_limit (ref : string) (r : Reference) :
  parse_verse_reference ref = Ok (Some r) ->
  exists b w c v tl x,
    strip ref = (b ++ w ++ c ++ ":" ++ v ++ tl)%string
    /\ is_book b /\ is_gap w /\ is_number c /\ is_number v /\ is_tail tl x
    /\ within_limit c /\ within_limit v /\ tail_within_limit x
    /\ r = reference_of b c v x.
Proof.
  intros H.
  destruct (re_match reference_pattern (strip ref)) as [[e g]|] eqn:Hm;
    [|unfold parse_verse_reference in H; rewrite Hm in H; discriminate].
  destruct (match_reading ref e g Hm)
    as (b & w & c & v & tl & E & Hb & Hw & Hc & Hv & Htl & H1 & H2 & H3).
  rewrite (parse_of_groups ref b c v tl e g Hm H1 H2 H3 Htl) in H.
  destruct (int_cases c Hc) as [[Lc Ec]|[_ Ec]]; rewrite Ec in H;
    [|discriminate].
  destruct (int_cases v Hv) as [[Lv Ev]|[_ Ev]]; rewrite Ev in H;
    [|discriminate].
  cbn [bind] in H.
  exists b, w, c, v, tl, (g 4%nat).
  destruct Htl as [[Et Eg]|(y & Et & Hy & Eg)]; rewrite Eg in *.
  - injection H as <-.
    assert (T : is_tail tl None) by (left; auto).
    exact (conj E (conj Hb (conj Hw (conj Hc (conj Hv (conj T
             (conj Lc (conj Lv (conj I eq_refl))))))))).
  - destruct (int_cases y Hy) as [[Ly Ey]|[_ Ey]]; rewrite Ey in H;
      [|discriminate].
    injection H as <-.
    assert (T : is_tail tl (Some y)) by (right; exists y; auto).
    exact (conj E (conj Hb (conj Hw (conj Hc (conj Hv (conj T
             (conj Lc (conj Lv (conj Ly eq_refl))))))))).
Qed.

Lemma parse_inv (ref : string) (r : Reference) :
  parse_verse_reference ref = Ok (Some r) ->
  exists b w c v tl x,
    strip ref = (b ++ w ++ c ++ ":" ++ v ++ tl)%string
    /\ is_book b /\ is_gap w /\ is_number c /\ is_number v /\ is_tail tl x
    /\ r = reference_of b c v x.
Proof.
  intros H.
  destruct (parse_inv_limit ref r H)
    as (b & w & c & v & tl & x & E & Hb & Hw & Hc & Hv & Htl & _ & _ & _ & Er).
  exists b, w, c, v, tl, x. auto 10.
Qed.

Lemma parse_ok (ref b w c v tl : string) (x : option string) :
  strip ref = (b ++ w ++ c ++ ":" ++ v ++ tl)%string ->
  is_book b -> is_gap w -> is_number c -> is_number v -> is_tail tl x ->
  within_limit c -> within_limit v -> tail_within_limit x ->
  parse_verse_reference ref = Ok (Some (reference_of b c v x)).
Proof.
  intros E Hb Hw Hc Hv Htl Lc Lv Lt.
  destruct (reference_pattern_ok b w c v tl x Hb Hw Hc Hv Htl) as (e & g & Hm).
  rewrite <- E in Hm.
  destruct (match_reading ref e g Hm)
    as (b1 & w1 & c1 & v1 & tl1 & E1 & Hb1 & Hw1 & Hc1 & Hv1 & Htl1
        & H1 & H2 & H3).
  assert (U := E1). rewrite E in U.
  destruct (reading_unique _ _ _ _ _ _ _ _ _ _ _ _ U
              Hb Hw Hc Hv Htl Hb1 Hw1 Hc1 Hv1 Htl1)
    as (Ebw & <- & <- & <- & Ex).
  rewrite Ex in Lt.
  rewrite (parse_of_groups_ok ref b1 c v tl e g Hm H1 H2 H3 Hc Hv Htl1 Lc Lv Lt).
  rewrite <- Ex. unfold reference_of. do 3 f_equal.
  destruct (strip ref) as [|h t] eqn:Es.
  { symmetry in E. apply str_app_eq_nil in E as [-> _].
    now apply is_book_nonempty in Hb. }
  pose proof (strip_head _ _ _ Es) as Hh.
  rewrite (strip_book (String h t) b1 w1 (c ++ ":" ++ v ++ tl) h t eq_refl Hh);
    [|now norm_app|exact Hb1|exact (proj2 Hw1)].
  rewrite (strip_book (String h t) b w (c ++ ":" ++ v ++ tl) h t eq_refl Hh);
    [|now norm_app|exact Hb|exact (proj2 Hw)].
  now rewrite Ebw.
Qed.

(** The parser returns [None], returns a reference, or raises the
    [ValueError] of [int]. *)
Lemma parse_cases (ref : string) :
  parse_verse_reference ref = Ok None
  \/ (exists r, parse_verse_reference ref = Ok (Some r))
  \/ parse_verse_reference ref = Raise ValueError.
Proof.
  destruct (re_match reference_pattern (strip ref)) as [[e g]|] eqn:Hm;
    [|left; unfold parse_verse_reference; now rewrite Hm].
  right.
  destruct (match_reading ref e g Hm)
    as (b & w & c & v & tl & E & Hb & Hw & Hc & Hv & Htl & H1 & H2 & H3).
  rewrite (parse_of_groups ref b c v tl e g Hm H1 H2 H3 Htl).
  destruct (int_cases c Hc) as [[_ ->]|[_ ->]]; [|right; reflexivity].
  destruct (int_cases v Hv) as [[_ ->]|[_ ->]]; [|right; reflexivity].
  cbn [bind].
  destruct Htl as [[_ ->]|(y & _ & Hy & ->)].
  - left. eexists. reflexivity.
  - destruct (int_cases y Hy) as [[_ ->]|[_ ->]];
      [left; eexists; reflexivity | right; reflexivity].
Qed.

(** When the parser does not return [None], the stripped input has one
    of the two shapes; when it raises, a numeral is beyond the limit. *)
Lemma parse_raises (ref : string) (e : exn) :
  parse_verse_reference ref = Raise e ->
  e = ValueError
  /\ exists b w c v tl x,
      strip ref = (b ++ w ++ c ++ ":" ++ v ++ tl)%string
      /\ is_book b /\ is_gap w /\ is_number c /\ is_number v /\ is_tail tl x
      /\ (~ within_limit c \/ ~ within_limit v \/ ~ tail_within_limit x).
Proof.
  intros H.
  destruct (re_match reference_pattern (strip ref)) as [[p g]|] eqn:Hm;
    [|unfold parse_verse_reference in H; rewrite Hm in H; discriminate].
  destruct (match_reading ref p g Hm)
    as (b & w & c & v & tl & E & Hb & Hw & Hc & Hv & Htl & H1 & H2 & H3).
  rewrite (parse_of_groups ref b c v tl p g Hm H1 H2 H3 Htl) in H.
  assert (G : e = ValueError
              /\ (~ within_limit c \/ ~ within_limit v
                  \/ ~ tail_within_limit (g 4%nat))).
  { destruct (int_cases c Hc) as [[_ Ec]|[Lc Ec]]; rewrite Ec in H;
      [|injection H as <-; auto].
    destruct (int_cases v Hv) as [[_ Ev]|[Lv Ev]]; rewrite Ev in H;
      [|injection H as <-; auto].
    cbn [bind] in H.
    destruct Htl as [[_ Eg]|(y & _ & Hy & Eg)]; rewrite Eg in *;
      [discriminate|].
    destruct (int_cases y Hy) as [[_ Ey]|[Ly Ey]]; rewrite Ey in H;
      [discriminate|].
    injection H as <-. auto. }
  destruct G as [-> G]. split; [reflexivity|].
  exists b, w, c, v, tl, (g 4%nat). auto 10.
Qed.

(** The numbers read off a matching string are not negative. *)
Lemma reference_of_nonneg (b c v tl : string) (x : option string) :
  is_number c -> is_number v -> is_tail tl x ->
  0 <= chapter (reference_of b c v x)
  /\ 0 <= start_verse (reference_of b c v x)
  /\ 0 <= end_verse (reference_of b c v x).
Proof.
  intros [_ Hc] [_ Hv] Htl. simpl.
  repeat split; try (apply digits_value_nonneg; [assumption | lia]).
  destruct Htl as [[_ ->]|(e & _ & [_ He] & ->)];
    apply digits_value_nonneg; auto; lia.
Qed.

Lemma parse_nonneg (ref : string) (r : Reference) :
  parse_verse_reference ref = Ok (Some r) ->
  0 <= chapter r /\ 0 <= start_verse r /\ 0 <= end_verse r.
Proof.
  intros H.
  destruct (parse_inv ref r H)
    as (b & w & c & v & tl & x & _ & _ & _ & Hc & Hv & Htl & ->).
  apply (reference_of_nonneg b c v tl x Hc Hv Htl).
Qed.

End ParseFacts.

(** ** The resolver *)

Section ResolverFacts.


Lemma join_initial_r (st : State) : join st initial = st.
Proof. destruct st. unfold join. simpl. now rewrite !List.app_nil_r. Qed.


Lemma join_append (st d : State) (v : ExtractedVerse) :
  join st (append d v) = append (join st d) v.
Proof. unfold join, append. simpl. now rewrite List.app_assoc. Qed.

Lemma join_print (st d : State) (line : string) :
  join st (print d line) = print (join st d) line.
Proof. unfold join, print. simpl. now rewrite List.app_assoc. Qed.

Lemma framed_ok (c : State -> res State) (st st' : State) :
  framed c -> c st = Ok st' -> exists d, c initial = Ok d /\ st' = join st d.
Proof.
  intros Hc H. rewrite Hc in H. destruct (c initial) as [d|e]; [|discriminate].
  injection H as <-. eauto.
Qed.

Lemma verse_loop_framed (parsed : Reference) (chapter_verses : list string)
      (verse_nums : list Z) :
  framed (verse_loop parsed chapter_verses verse_nums).
Proof.
  assert (G : forall st d,
             verse_loop parsed chapter_verses verse_nums (join st d)
             = match verse_loop parsed chapter_verses verse_nums d with
               | Ok d' => Ok (join st d')
               | Raise e => Raise e
               end).
  { induction verse_nums as [|v vs IH]; intros st d; simpl; [reflexivity|].
    destruct (v - 1 <? len chapter_verses).
    - destruct (index chapter_verses (v - 1)) as [t|e]; simpl; [|reflexivity].
      rewrite <- join_append. apply IH.
    - rewrite <- join_print. apply IH. }
  intros st. rewrite <- (join_initial_r st) at 1. apply G.
Qed.

Lemma book_body_framed (parsed : Reference) (book_entry : BookEntry) :
  framed (book_body parsed book_entry).
Proof.
  intros st. unfold book_body.
  destruct (chapter parsed - 1 <? len (chapters_of book_entry)).
  - destruct (index (chapters_of book_entry) (chapter parsed - 1)) as [cv|e];
      simpl; [|reflexivity].
    apply verse_loop_framed.
  - now rewrite join_print, join_initial_r.
Qed.

Lemma book_loop_find (parsed : Reference) (book_abbrev : string)
      (kjv_data : list BookEntry) (st : State) :
  book_loop parsed book_abbrev kjv_data st
  = match find_book kjv_data book_abbrev with
    | Some book_entry => st' <- book_body parsed book_entry st ;; Ok (true, st')
    | None => Ok (false, st)
    end.
Proof.
  unfold find_book. induction kjv_data as [|be rest IH]; simpl; [reflexivity|].
  destruct (abbrev_is be book_abbrev); [reflexivity | exact IH].
Qed.

Lemma BOOK_ABBREV_values (k v : string) :
  get BOOK_ABBREV k = Some v -> v <> EmptyString.
Proof.
  unfold BOOK_ABBREV. cbn [get].
  repeat (destruct (String.eqb _ k);
          [intros H; injection H as <-; discriminate|]).
  discriminate.
Qed.

(** The iteration for a reference that parses, by what the book lookups
    give. *)
Lemma process_unparsed (kjv_data : list BookEntry) (st : State) (ref : string) :
  parse_verse_reference ref = Ok None ->
  process_reference kjv_data st ref
  = Ok (print st ("Warning: Could not parse reference: " ++ ref)).
Proof. intros H. unfold process_reference. now rewrite H. Qed.

Lemma process_unknown (kjv_data : list BookEntry) (st : State) (ref : string)
      (r : Reference) :
  parse_verse_reference ref = Ok (Some r) ->
  get BOOK_ABBREV (book r) = None ->
  process_reference kjv_data st ref
  = Ok (print st ("Warning: Unknown book: " ++ book r)).
Proof. intros H G. unfold process_reference. rewrite H. cbn [bind]. now rewrite G. Qed.

Lemma process_missing (kjv_data : list BookEntry) (st : State) (ref : string)
      (r : Reference) (book_abbrev : string) :
  parse_verse_reference ref = Ok (Some r) ->
  get BOOK_ABBREV (book r) = Some book_abbrev ->
  find_book kjv_data book_abbrev = None ->
  process_reference kjv_data st ref
  = Ok (print st ("Warning: Book not found in KJV data: " ++ book r)).
Proof.
  intros H G F. unfold process_reference. rewrite H. cbn [bind]. rewrite G.
  destruct book_abbrev as [|c a]; [now apply BOOK_ABBREV_values in G|].
  now rewrite book_loop_find, F.
Qed.

Lemma process_found (kjv_data : list BookEntry) (st : State) (ref : string)
      (r : Reference) (book_abbrev : string) (book_entry : BookEntry) :
  parse_verse_reference ref = Ok (Some r) ->
  get BOOK_ABBREV (book r) = Some book_abbrev ->
  find_book kjv_data book_abbrev = Some book_entry ->
  process_reference kjv_data st ref = book_body r book_entry st.
Proof.
  intros H G F. unfold process_reference. rewrite H. cbn [bind]. rewrite G.
  destruct book_abbrev as [|c a]; [now apply BOOK_ABBREV_values in G|].
  rewrite book_loop_find, F.
  now destruct (book_body r book_entry st).
Qed.

Lemma process_raised (kjv_data : list BookEntry) (st : State) (ref : string)
      (e : exn) :
  parse_verse_reference ref = Raise e ->
  process_reference kjv_data st ref = Raise e.
Proof. intros H. unfold process_reference. now rewrite H. Qed.

Lemma process_reference_framed (kjv_data : list BookEntry) (ref : string) :
  framed (fun st => process_reference kjv_data st ref).
Proof.
  intros st.
  destruct (parse_cases ref) as [H|[[r H]|H]].
  - rewrite !(process_unparsed _ _ _ H). now rewrite join_print, join_initial_r.
  - destruct (get BOOK_ABBREV (book r)) as [a|] eqn:G.
    + destruct (find_book kjv_data a) as [be|] eqn:F.
      * rewrite !(process_found _ _ _ _ _ _ H G F). apply book_body_framed.
      * rewrite !(process_missing _ _ _ _ _ H G F).
        now rewrite join_print, join_initial_r.
    + rewrite !(process_unknown _ _ _ _ H G).
      now rewrite join_print, join_initial_r.
  - rewrite !(process_raised _ _ _ _ H). reflexivity.
Qed.

Lemma reference_loop_extracted (kjv_data : list BookEntry)
      (references : list string) :
  forall st st',
    reference_loop kjv_data references st = Ok st' ->
    extracted st'
    = (extracted st ++ List.concat (map (resolved kjv_data) references))%list.
Proof.
  induction references as [|ref rest IH]; intros st st' H; simpl in *.
  - injection H as <-. now rewrite List.app_nil_r.
  - destruct (process_reference kjv_data st ref) as [st1|e] eqn:E;
      [|discriminate]. simpl in H.
    apply (framed_ok (fun st => process_reference kjv_data st ref)) in E
      as (d & Ed & ->); [|apply process_reference_framed].
    rewrite (IH _ _ H). unfold resolved at 2. rewrite Ed. simpl.
    now rewrite List.app_assoc.
Qed.

End ResolverFacts.

(** ** Indexing, [range], and the verse loop *)

Section LoopFacts.

Lemma len_nonneg {A : Type} (l : list A) : 0 <= len l.
Proof. unfold len. lia. Qed.

Lemma index_nonneg {A : Type} (l : list A) (i : Z) (a : A) :
  0 <= i -> nth_error l (Z.to_nat i) = Some a -> index l i = Ok a.
Proof.
  intros Hi H. unfold index.
  destruct (i <? 0) eqn:E; [apply Z.ltb_lt in E; lia|].
  rewrite E. now rewrite H.
Qed.



Lemma index_minus_one_empty {A : Type} : index (@nil A) (-1) = Raise IndexError.
Proof. reflexivity. Qed.

(** Within [-len(l) <= i < len(l)] indexing returns. *)
Lemma index_returns {A : Type} (l : list A) (i : Z) :
  - len l <= i < len l -> exists a, index l i = Ok a.
Proof.
  intros H. unfold index.
  set (j := if i <? 0 then len l + i else i).
  assert (Hj : 0 <= j < len l).
  { subst j. destruct (i <? 0) eqn:E;
      [apply Z.ltb_lt in E | apply Z.ltb_ge in E]; lia. }
  destruct (j <? 0) eqn:E; [apply Z.ltb_lt in E; lia|].
  destruct (nth_error l (Z.to_nat j)) as [a|] eqn:N; [eauto|].
  apply nth_error_None in N. unfold len in Hj. lia.
Qed.

Lemma range_empty (a b : Z) : b <= a -> range a b = [].
Proof. intros H. unfold range. now replace (Z.to_nat (b - a)) with 0%nat by lia. Qed.

Lemma range_cons (a b : Z) : a < b -> range a b = a :: range (a + 1) b.
Proof.
  intros H. unfold range.
  replace (Z.to_nat (b - a)) with (S (Z.to_nat (b - (a + 1)))) by lia.
  simpl. rewrite Z.add_0_r. f_equal.
  rewrite <- seq_shift, map_map. apply map_ext. intros k. lia.
Qed.

Lemma range_length (a b : Z) : a <= b -> len (range a b) = b - a.
Proof. intros H. unfold range, len. rewrite length_map, length_seq. lia. Qed.

Lemma range_In (a b v : Z) : In v (range a b) <-> a <= v < b.
Proof.
  unfold range. rewrite in_map_iff. split.
  - intros (k & <- & Hk). apply in_seq in Hk. lia.
  - intros H. exists (Z.to_nat (v - a)). split; [lia|]. apply in_seq. lia.
Qed.

(** The verse loop, when no fetch raises: it appends the verses the
    chapter has, in the order of the numbers, and prints a warning for
    each of the others. *)
Lemma verse_loop_spec (parsed : Reference) (chapter_verses : list string)
      (verse_nums : list Z) :
  Forall (fun v => - len chapter_verses <= v - 1) verse_nums ->
  forall st,
    verse_loop parsed chapter_verses verse_nums st
    = Ok {| extracted :=
              extracted st ++ map (verse_of parsed chapter_verses)
                                  (filter (in_chapter chapter_verses) verse_nums);
            out :=
              out st ++ map (warning_of parsed)
                            (filter (fun v => negb (in_chapter chapter_verses v))
                                    verse_nums) |}.
Proof.
  induction 1 as [|v vs Hv _ IH]; intros st; simpl.
  - rewrite !List.app_nil_r. now destruct st.
  - change (v - 1 <? len chapter_verses) with (in_chapter chapter_verses v).
    destruct (in_chapter chapter_verses v) eqn:E; simpl.
    + apply Z.ltb_lt in E.
      destruct (index_returns chapter_verses (v - 1)) as [t Ht]; [lia|].
      rewrite Ht. cbn [bind]. rewrite IH. unfold append. simpl.
      rewrite <- !List.app_assoc. simpl.
      unfold verse_of, text_at. now rewrite Ht.
    + rewrite IH. unfold print. simpl. now rewrite <- !List.app_assoc.
Qed.

Lemma in_chapter_le (chapter_verses : list string) (v : Z) :
  in_chapter chapter_verses v = (v <=? len chapter_verses).
Proof.
  unfold in_chapter.
  destruct (v - 1 <? len chapter_verses) eqn:E, (v <=? len chapter_verses) eqn:F;
    try reflexivity;
    [apply Z.ltb_lt in E; apply Z.leb_gt in F
    |apply Z.ltb_ge in E; apply Z.leb_le in F]; lia.
Qed.

Lemma not_in_chapter_gt (chapter_verses : list string) (v : Z) :
  negb (in_chapter chapter_verses v) = (len chapter_verses <? v).
Proof.
  rewrite in_chapter_le.
  destruct (v <=? len chapter_verses) eqn:E, (len chapter_verses <? v) eqn:F;
    try reflexivity;
    [apply Z.leb_le in E; apply Z.ltb_lt in F
    |apply Z.leb_gt in E; apply Z.ltb_ge in F]; lia.
Qed.

End LoopFacts.

(** ** Removing annotations *)

Section AnnotationFacts.

Local Open Scope nat_scope.

Lemma has_app (x : ascii) (a b : string) : has x (a ++ b) = has x a || has x b.
Proof.
  induction a as [|c a IH]; simpl; [reflexivity|]. now rewrite IH, orb_assoc.
Qed.

(** A string with a closing brace, cut at the first one. *)
Lemma first_close (s : string) :
  has "}" s = true ->
  exists body rest, s = (body ++ String "}" rest)%string /\ all not_close body = true.
Proof.
  induction s as [|c s IH]; simpl; [discriminate|].
  destruct (Ascii.eqb c "}") eqn:E; simpl.
  - intros _. apply Ascii.eqb_eq in E as ->. exists EmptyString, s. auto.
  - intros H. destruct (IH H) as (body & rest & -> & Hb).
    exists (String c body), rest. simpl. unfold not_close at 1. now rewrite E, Hb.
Qed.

Lemma annotation_match_inv (pos : nat) (s : string) (e : nat) (g : groups) :
  match_at annotation_pattern pos s = Some (e, g) ->
  exists body rest,
    s = String "{" (body ++ String "}" rest)
    /\ e = pos + (2 + String.length body).
Proof.
  unfold match_at. intros H.
  apply run_sound in H as (s1 & rest & g' & -> & Hm & Hk).
  injection Hk as <- _. simpl in Hm.
  destruct Hm as (u & v & gm & -> & (-> & _) & Hm).
  destruct Hm as (body & cl & gm' & -> & _ & (-> & _)).
  exists body, rest. split.
  - norm_app. reflexivity.
  - rewrite !str_length_app. simpl. lia.
Qed.

Lemma annotation_match_ok (pos : nat) (body rest : string) :
  all not_close body = true ->
  exists e g,
    match_at annotation_pattern pos (String "{" (body ++ String "}" rest))
    = Some (e, g).
Proof.
  intros Hb. unfold match_at.
  assert (Hm : matches annotation_pattern pos
                 ("{" ++ body ++ "}") rest no_groups no_groups).
  { simpl. exists "{"%string, (body ++ "}")%string, no_groups.
    split; [reflexivity|]. split; [auto|].
    exists body, "}"%string, no_groups. auto. }
  destruct (run_complete annotation_pattern _ _ _ _ _
              (fun pos' _ g => Some (pos', g)) _ Hm eq_refl) as [[e g] E].
  exists e, g. rewrite <- E. f_equal. now norm_app.
Qed.

(** Where the pattern does not match, there is no brace pair to take. *)
Lemma annotation_match_none (pos : nat) (c : ascii) (s : string) :
  match_at annotation_pattern pos (String c s) = None ->
  negb (Ascii.eqb c "{") || negb (has "}" s) = true.
Proof.
  intros H. destruct (Ascii.eqb c "{") eqn:E; [|reflexivity].
  destruct (has "}" s) eqn:F; [|reflexivity].
  apply Ascii.eqb_eq in E as ->.
  destruct (first_close s F) as (body & rest & -> & Hb).
  destruct (annotation_match_ok pos body rest Hb) as (e & g & E). congruence.
Qed.

(** What [re.sub] leaves is made of characters of the subject. *)
Lemma sub_from_has (r : regex) (x : ascii) (s : string) :
  forall skip pos, has x (sub_from r "" skip pos s) = true -> has x s = true.
Proof.
  induction s as [|c s IH]; intros skip pos; simpl.
  - destruct skip; [destruct (match_at r pos "")|]; simpl; auto.
  - destruct skip as [|k]; [|intros H; apply IH in H; rewrite H; apply orb_true_r].
    destruct (match_at r pos (String c s)) as [[e g]|].
    + destruct (e - pos); simpl; intros H.
      * apply orb_true_iff in H as [H|H]; [now rewrite H|].
        apply IH in H. rewrite H. apply orb_true_r.
      * apply IH in H. rewrite H. apply orb_true_r.
    + simpl. intros H.
      apply orb_true_iff in H as [H|H]; [now rewrite H|].
      apply IH in H. rewrite H. apply orb_true_r.
Qed.

Lemma sub_from_no_pair (s : string) :
  forall skip pos, no_pair (sub_from annotation_pattern "" skip pos s) = true.
Proof.
  induction s as [|c s IH]; intros skip pos; simpl.
  - destruct skip; [destruct (match_at annotation_pattern pos "")|]; reflexivity.
  - destruct skip as [|k]; [|apply IH].
    destruct (match_at annotation_pattern pos (String c s)) as [[e g]|] eqn:E.
    + destruct (annotation_match_inv _ _ _ _ E) as (body & rest & _ & ->).
      replace (pos + (2 + String.length body) - pos)
        with (S (S (String.length body))) by lia.
      simpl. apply IH.
    + simpl. rewrite IH, andb_true_r.
      apply annotation_match_none in E.
      apply orb_true_iff in E as [E|E]; [now rewrite E|].
      destruct (has "}" (sub_from annotation_pattern "" 0 (S pos) s)) eqn:F;
        [|apply orb_true_r].
      apply sub_from_has in F. rewrite F in E. discriminate.
Qed.

Lemma sub_from_fixed (s : string) :
  forall pos, no_pair s = true -> sub_from annotation_pattern "" 0 pos s = s.
Proof.
  induction s as [|c s IH]; intros pos H; simpl.
  - now destruct (match_at annotation_pattern pos "").
  - simpl in H. apply andb_true_iff in H as [Hc Hs].
    destruct (match_at annotation_pattern pos (String c s)) as [[e g]|] eqn:E.
    + destruct (annotation_match_inv _ _ _ _ E) as (body & rest & Es & _).
      injection Es as -> ->. simpl in Hc.
      rewrite has_app in Hc. simpl in Hc. rewrite orb_true_r in Hc. discriminate.
    + now rewrite IH.
Qed.

Lemma no_pair_tail (c : ascii) (s : string) :
  no_pair (String c s) = true -> no_pair s = true.
Proof. simpl. intros H. now apply andb_true_iff in H as [_ H]. Qed.

Lemma lstrip_no_pair (s : string) : no_pair s = true -> no_pair (lstrip s) = true.
Proof.
  induction s as [|c s IH]; intros H; [reflexivity|].
  simpl. destruct (isspace c); [apply IH; eapply no_pair_tail; eauto | exact H].
Qed.

Lemma rstrip_has (x : ascii) (s : string) :
  has x (rstrip s) = true -> has x s = true.
Proof.
  induction s as [|c s IH]; simpl; [auto|].
  destruct (rstrip s) as [|h r].
  - destruct (isspace c); simpl; [discriminate|].
    rewrite orb_false_r. intros ->. reflexivity.
  - intros H. change (has x (String c (String h r)))
      with (Ascii.eqb c x || has x (String h r)) in H.
    apply orb_true_iff in H as [H|H]; [now rewrite H|].
    rewrite (IH H). apply orb_true_r.
Qed.

Lemma rstrip_no_pair (s : string) : no_pair s = true -> no_pair (rstrip s) = true.
Proof.
  induction s as [|c s IH]; intros H; [reflexivity|].
  simpl in H. apply andb_true_iff in H as [Hc Hs]. specialize (IH Hs).
  simpl. destruct (rstrip s) as [|h r] eqn:E.
  - destruct (isspace c); [reflexivity|]. simpl.
    now rewrite orb_true_r.
  - change (no_pair (String c (String h r)))
      with ((negb (Ascii.eqb c "{") || negb (has "}" (String h r)))
            && no_pair (String h r))%bool.
    rewrite IH, andb_true_r.
    apply orb_true_iff in Hc as [Hc|Hc]; [now rewrite Hc|].
    destruct (has "}" (String h r)) eqn:F; [|apply orb_true_r].
    rewrite <- E in F. apply rstrip_has in F. rewrite F in Hc. discriminate.
Qed.

Lemma strip_no_pair (s : string) : no_pair s = true -> no_pair (strip s) = true.
Proof. intros H. unfold strip. now apply rstrip_no_pair, lstrip_no_pair. Qed.

End AnnotationFacts.

(** ** The shapes against the parser *)

Section ShapeFacts.

Lemma reading_shape (t b w c v tl : string) (x : option string) :
  t = (b ++ w ++ c ++ ":" ++ v ++ tl)%string ->
  is_book b -> is_gap w -> is_number c -> is_number v -> is_tail tl x ->
  reference_shape t.
Proof.
  intros E Hb Hw Hc Hv [[-> _]|(e & -> & He & _)].
  - left. exists b, w, c, v. rewrite str_app_nil_r in E. auto.
  - right. exists b, w, c, v, e. auto 10.
Qed.

Lemma shape_matches (t : string) :
  reference_shape t -> exists e g, re_match reference_pattern t = Some (e, g).
Proof.
  intros [(b & w & c & v & -> & Hb & Hw & Hc & Hv)
         |(b & w & c & v & e & -> & Hb & Hw & Hc & Hv & He)].
  - destruct (reference_pattern_ok b w c v "" None Hb Hw Hc Hv) as (p & g & Hm).
    + left. auto.
    + rewrite str_app_nil_r in Hm. eauto.
  - apply (reference_pattern_ok b w c v ("-" ++ e) (Some e) Hb Hw Hc Hv).
    right. exists e. auto.
Qed.

Lemma raises_shape (ref : string) (e : exn) :
  parse_verse_reference ref = Raise e -> reference_shape (strip ref).
Proof.
  intros H.
  destruct (parse_raises ref e H)
    as (_ & b & w & c & v & tl & x & E & Hb & Hw & Hc & Hv & Htl & _).
  eapply reading_shape; eauto.
Qed.

Lemma parses_shape (ref : string) (r : Reference) :
  parse_verse_reference ref = Ok (Some r) -> reference_shape (strip ref).
Proof.
  intros H.
  destruct (parse_inv ref r H)
    as (b & w & c & v & tl & x & E & Hb & Hw & Hc & Hv & Htl & _).
  eapply reading_shape; eauto.
Qed.

End ShapeFacts.

(** ** The questions *)

Section QuestionFacts.

Lemma questions_from_length (ex : list ExtractedVerse) :
  forall idx, List.length (questions_from idx ex) = List.length ex.
Proof. induction ex as [|v ex IH]; intros idx; simpl; [reflexivity | now rewrite IH]. Qed.

Lemma questions_from_ids (ex : list ExtractedVerse) :
  forall idx, map id (questions_from idx ex) = range idx (idx + len ex).
Proof.
  induction ex as [|v ex IH]; intros idx.
  - simpl. rewrite range_empty; [reflexivity | unfold len; simpl; lia].
  - cbn [questions_from map id]. rewrite IH.
    rewrite (range_cons idx); [|pose proof (len_nonneg (v :: ex)); unfold len in *;
                                simpl List.length in *; lia].
    f_equal. f_equal. unfold len. simpl List.length. lia.
Qed.

Lemma questions_from_nth (ex : list ExtractedVerse) :
  forall idx (i : nat) v,
    nth_error ex i = Some v ->
    nth_error (questions_from idx ex) i
    = Some {| id := idx + Z.of_nat i;
              verse_reference := reference v;
              verse_text := text v;
              question := "What does " ++ reference v ++ " say?";
              correct_answer := text v;
              options := [] |}.
Proof.
  induction ex as [|x ex IH]; intros idx i v H; [destruct i; discriminate|].
  destruct i as [|i]; cbn [nth_error questions_from] in *.
  - injection H as ->. now rewrite Z.add_0_r.
  - rewrite (IH _ _ _ H). do 2 f_equal. lia.
Qed.

End QuestionFacts.

(** ** Where extracted verses come from *)

Section ProvenanceFacts.

Variable kjv_data : list BookEntry.

Lemma index_In {A : Type} (l : list A) (i : Z) (a : A) : index l i = Ok a -> In a l.
Proof.
  unfold index. destruct ((if i <? 0 then len l + i else i) <? 0); [discriminate|].
  destruct (nth_error l _) as [x|] eqn:E; [|discriminate].
  intros H. injection H as <-. eapply nth_error_In. exact E.
Qed.

Lemma verse_loop_from_corpus (parsed : Reference) (book_entry : BookEntry)
      (chapter_verses : list string) (verse_nums : list Z) :
  In book_entry kjv_data -> In chapter_verses (chapters_of book_entry) ->
  forall st st',
    Forall (from_corpus kjv_data) (extracted st) ->
    verse_loop parsed chapter_verses verse_nums st = Ok st' ->
    Forall (from_corpus kjv_data) (extracted st').
Proof.
  intros Hbe Hcv.
  induction verse_nums as [|v vs IH]; intros st st' Hst H; simpl in H.
  - injection H as <-. exact Hst.
  - destruct (v - 1 <? len chapter_verses).
    + destruct (index chapter_verses (v - 1)) as [raw|e] eqn:E; [|discriminate].
      cbn [bind] in H. eapply IH; [|exact H].
      unfold append. simpl. apply Forall_app. split; [exact Hst|].
      constructor; [|constructor].
      exists parsed, v, book_entry, chapter_verses, raw.
      repeat split; auto. eapply index_In. exact E.
    + eapply IH; [|exact H]. exact Hst.
Qed.

Lemma find_book_In (book_abbrev : string) (book_entry : BookEntry) :
  find_book kjv_data book_abbrev = Some book_entry -> In book_entry kjv_data.
Proof. unfold find_book. intros H. now apply find_some in H. Qed.

Lemma process_reference_from_corpus (ref : string) (st st' : State) :
  Forall (from_corpus kjv_data) (extracted st) ->
  process_reference kjv_data st ref = Ok st' ->
  Forall (from_corpus kjv_data) (extracted st').
Proof.
  intros Hst H.
  destruct (parse_cases ref) as [P|[[r P]|P]];
    [| |rewrite (process_raised _ _ _ _ P) in H; discriminate].
  - rewrite (process_unparsed _ _ _ P) in H. injection H as <-. exact Hst.
  - destruct (get BOOK_ABBREV (book r)) as [a|] eqn:G.
    + destruct (find_book kjv_data a) as [be|] eqn:F.
      * rewrite (process_found _ _ _ _ _ _ P G F) in H. unfold book_body in H.
        destruct (chapter r - 1 <? len (chapters_of be)).
        -- destruct (index (chapters_of be) (chapter r - 1)) as [cv|e] eqn:E;
             [|discriminate].
           cbn [bind] in H.
           eapply verse_loop_from_corpus; [| |exact Hst|exact H].
           ++ eapply find_book_In. exact F.
           ++ eapply index_In. exact E.
        -- injection H as <-. exact Hst.
      * rewrite (process_missing _ _ _ _ _ P G F) in H. injection H as <-.
        exact Hst.
    + rewrite (process_unknown _ _ _ _ P G) in H. injection H as <-. exact Hst.
Qed.

Lemma reference_loop_from_corpus (references : list string) :
  forall st st',
    Forall (from_corpus kjv_data) (extracted st) ->
    reference_loop kjv_data references st = Ok st' ->
    Forall (from_corpus kjv_data) (extracted st').
Proof.
  induction references as [|ref rest IH]; intros st st' Hst H; simpl in H.
  - injection H as <-. exact Hst.
  - destruct (process_reference kjv_data st ref) as [st1|e] eqn:E; [|discriminate].
    cbn [bind] in H. eapply IH; [|exact H].
    eapply process_reference_from_corpus; eauto.
Qed.

End ProvenanceFacts.

(** ** When the run returns

    A fetch can only raise on index [-1] of an empty list: chapter 0 of
    an entry without chapters, or verse 0 of a chapter without verses. *)

Section ReturnFacts.

Variable kjv_data : list BookEntry.
Hypothesis kjv_populated : populated kjv_data.

Lemma book_body_returns (r : Reference) (book_entry : BookEntry) (st : State) :
  In book_entry kjv_data -> 0 <= chapter r -> 0 <= start_verse r ->
  exists st', book_body r book_entry st = Ok st'.
Proof.
  intros Hin Hc Hs. destruct (kjv_populated book_entry Hin) as [Hne Hcv].
  unfold book_body.
  destruct (chapter r - 1 <? len (chapters_of book_entry)) eqn:E; [|eauto].
  apply Z.ltb_lt in E.
  assert (0 < len (chapters_of book_entry))
    by (unfold len; destruct (chapters_of book_entry); simpl; [congruence | lia]).
  destruct (index_returns (chapters_of book_entry) (chapter r - 1)) as [cv Hi];
    [lia|].
  rewrite Hi. cbn [bind].
  rewrite verse_loop_spec; [eauto|].
  apply Forall_forall. intros v Hv. apply range_In in Hv.
  assert (cv <> []) by (apply Hcv; eapply index_In; exact Hi).
  assert (0 < len cv) by (unfold len; destruct cv; simpl; [congruence | lia]).
  lia.
Qed.

Lemma process_reference_returns (st : State) (ref : string) :
  (exists result, parse_verse_reference ref = Ok result) ->
  exists st', process_reference kjv_data st ref = Ok st'.
Proof.
  intros [[r|] P].
  2: { rewrite (process_unparsed _ _ _ P). eauto. }
  - destruct (get BOOK_ABBREV (book r)) as [a|] eqn:G.
    + destruct (find_book kjv_data a) as [be|] eqn:F.
      * rewrite (process_found _ _ _ _ _ _ P G F).
        destruct (parse_nonneg ref r P) as (Hc & Hs & _).
        apply book_body_returns; auto. eapply find_book_In. exact F.
      * rewrite (process_missing _ _ _ _ _ P G F). eauto.
    + rewrite (process_unknown _ _ _ _ P G). eauto.
Qed.

Lemma reference_loop_returns (references : list string) :
  (forall ref, In ref references ->
               exists result, parse_verse_reference ref = Ok result) ->
  forall st, exists st', reference_loop kjv_data references st = Ok st'.
Proof.
  induction references as [|ref rest IH]; intros H st; simpl; [eauto|].
  destruct (process_reference_returns st ref) as [st1 ->];
    [apply H; now left|].
  apply IH. intros ref' Hin. apply H. now right.
Qed.

(** X3.  On a corpus in which every book entry has a chapter and every
    chapter a verse, the run returns its questions for every list of
    references on none of which the parser raises: chapter 0 and verse 0
    then read the last chapter and the last verse. *)
Lemma main_questions_returns (references : list string) :
  (forall ref, In ref references ->
               exists result, parse_verse_reference ref = Ok result) ->
  exists questions, main_questions kjv_data references = Ok questions.
Proof.
  intros H. unfold main_questions, extract_verses_from_kjv.
  destruct (reference_loop_returns references H initial) as [st ->]. simpl. eauto.
Qed.

End ReturnFacts.

(** Verse 0 of a chapter without verses: the fetch raises, and the run
    with it. *)
Example verse_zero_of_empty_chapter :
  main_questions kjv_sample ["John 3:16"; "Genesis 2:0"] = Raise IndexError.
Proof. reflexivity. Qed.

(** The worked examples of the specification. *)
Example genesis_1_1 :
  extract_verses_from_kjv kjv_sample ["Genesis 1:1"]
  = Ok {| extracted := [ {| reference := "Genesis 1:1";
                            text := "In the beginning  God" |} ];
          out := [] |}.
Proof. reflexivity. Qed.

Example three_references :
  extract_verses_from_kjv kjv_sample ["John 3:3"; "NotABook 1:1"; "Genesis 1:1-2"]
  = Ok {| extracted := [ {| reference := "John 3:3"; text := "v3" |};
                         {| reference := "Genesis 1:1";
                            text := "In the beginning  God" |};
                         {| reference := "Genesis 1:2"; text := "second verse" |} ];
          out := ["Warning: Unknown book: NotABook"] |}
  /\ option_map (map id)
        (match main_questions kjv_sample
                 ["John 3:3"; "NotABook 1:1"; "Genesis 1:1-2"] with
         | Ok qs => Some qs
         | Raise _ => None
         end) = Some [1; 2; 3].
Proof. split; reflexivity. Qed.

(** ** Order of the verse numbers *)

Section OrderFacts.

Lemma range_sorted (a b : Z) : StronglySorted Z.lt (range a b).
Proof.
  unfold range. generalize (Z.to_nat (b - a)) as n. intros n.
  generalize 0%nat as s. induction n as [|n IH]; intros s; simpl.
  - constructor.
  - constructor; [apply IH|].
    apply Forall_forall. intros x Hx. apply in_map_iff in Hx as (k & <- & Hk).
    apply in_seq in Hk. lia.
Qed.

Lemma filter_sorted (f : Z -> bool) (l : list Z) :
  StronglySorted Z.lt l -> StronglySorted Z.lt (filter f l).
Proof.
  induction 1 as [|x l Hl IH Hx]; simpl; [constructor|].
  destruct (f x); [|exact IH].
  constructor; [exact IH|].
  apply Forall_forall. intros y Hy. apply filter_In in Hy as [Hy _].
  rewrite Forall_forall in Hx. now apply Hx.
Qed.

End OrderFacts.

(** * The properties of the specification *)

(** C1.  A range reference [Book C:V1-V2] with [V1 <= V2] parses to a
    Reference that starts at [V1] and ends at [V2].  When the book is a
    key of [BOOK_ABBREV], the corpus has an entry for it and that entry
    has a chapter [C], the iteration appends one verse for each number of
    [V1..V2] that does not exceed the number of verses of the chapter, in
    ascending order of the numbers, and nothing else: [V2 - V1 + 1]
    verses less the numbers that exceed.  Verse number 0, which the
    pattern admits, is covered when the chapter has a verse. *)
Theorem range_reference_resolves (kjv_data : list BookEntry) (st : State)
        (ref b w c v1 v2 : string) (cn n1 n2 : Z)
        (book_abbrev : string) (book_entry : BookEntry)
        (chapter_verses : list string) :
  strip ref = (b ++ w ++ c ++ ":" ++ v1 ++ "-" ++ v2)%string ->
  is_book b -> is_gap w ->
  int c = Ok cn -> int v1 = Ok n1 -> int v2 = Ok n2 -> n1 <= n2 ->
  get BOOK_ABBREV (strip b) = Some book_abbrev ->
  find_book kjv_data book_abbrev = Some book_entry ->
  1 <= cn ->
  nth_error (chapters_of book_entry) (Z.to_nat (cn - 1)) = Some chapter_verses ->
  1 <= n1 \/ chapter_verses <> [] ->
  let r := {| book := strip b; chapter := cn; start_verse := n1; end_verse := n2 |} in
  let nums := filter (fun v => v <=? len chapter_verses) (range n1 (n2 + 1)) in
  let over := filter (fun v => len chapter_verses <? v) (range n1 (n2 + 1)) in
  parse_verse_reference ref = Ok (Some r)
  /\ process_reference kjv_data st ref
     = Ok {| extracted := extracted st ++ map (verse_of r chapter_verses) nums;
             out := out st ++ map (warning_of r) over |}
  /\ len (map (verse_of r chapter_verses) nums) = n2 - n1 + 1 - len over
  /\ map reference (map (verse_of r chapter_verses) nums)
     = map (fun v => strip b ++ " " ++ str cn ++ ":" ++ str v)%string nums
  /\ StronglySorted Z.lt nums.
Proof.
  intros E Hb Hw Hc Hv1 Hv2 Hle G F Hcn Hch Hv r nums over.
  pose proof (int_nonneg _ _ Hv1) as Hn1.
  pose proof (int_inv_limit _ _ Hc) as Lc.
  pose proof (int_inv_limit _ _ Hv1) as Lv1.
  pose proof (int_inv_limit _ _ Hv2) as Lv2.
  apply int_inv in Hc as [Hc Ecn]. apply int_inv in Hv1 as [Hv1 En1].
  apply int_inv in Hv2 as [Hv2 En2].
  assert (P : parse_verse_reference ref = Ok (Some r)).
  { subst r cn n1 n2.
    apply (parse_ok ref b w c v1 ("-" ++ v2) (Some v2)); auto.
    right. exists v2. auto. }
  assert (Hnums : filter (in_chapter chapter_verses) (range n1 (n2 + 1)) = nums).
  { apply filter_ext. intros v. apply in_chapter_le. }
  assert (Hover : filter (fun v => negb (in_chapter chapter_verses v))
                         (range n1 (n2 + 1)) = over).
  { apply filter_ext. intros v. apply not_in_chapter_gt. }
  split; [exact P|]. split; [|split; [|split]].
  - rewrite (process_found kjv_data st ref r book_abbrev book_entry P G F).
    unfold book_body. cbn [chapter start_verse end_verse r].
    assert (Hlt : cn - 1 < len (chapters_of book_entry)).
    { assert (nth_error (chapters_of book_entry) (Z.to_nat (cn - 1)) <> None)
        by congruence.
      apply nth_error_Some in H. unfold len. lia. }
    apply Z.ltb_lt in Hlt. rewrite Hlt.
    assert (H0 : 0 <= cn - 1) by lia.
    rewrite (index_nonneg _ _ _ H0 Hch). cbn [bind].
    rewrite verse_loop_spec, Hnums, Hover; [reflexivity|].
    apply Forall_forall. intros v Hin. apply range_In in Hin.
    pose proof (len_nonneg chapter_verses).
    destruct Hv as [Hv|Hv]; [lia|].
    assert (0 < len chapter_verses)
      by (unfold len; destruct chapter_verses; simpl; [congruence | lia]).
    lia.
  - unfold len. rewrite length_map.
    pose proof (filter_length (in_chapter chapter_verses) (range n1 (n2 + 1))) as L.
    rewrite Hnums, Hover in L.
    assert (R : len (range n1 (n2 + 1)) = n2 + 1 - n1) by (apply range_length; lia).
    unfold len in R. lia.
  - rewrite map_map. reflexivity.
  - apply filter_sorted, range_sorted.
Qed.

Lemma range_reference_resolves_witness :
  process_reference kjv_sample initial "John 3:1-4"
  = Ok {| extracted := [ {| reference := "John 3:1"; text := "v1" |};
                         {| reference := "John 3:2"; text := "v2" |};
                         {| reference := "John 3:3"; text := "v3" |} ];
          out := ["Warning: Verse 4 not found in John 3"] |}.
Proof.
  refine (proj1 (proj2
    (range_reference_resolves kjv_sample initial "John 3:1-4"
       "John" " " "3" "1" "4" 3 1 4 "jn"
       {| abbrev := Some "jn";
          chapters := Some [ ["a"]; ["b"]; ["v1"; "v2"; "{x}v3"] ] |}
       ["v1"; "v2"; "{x}v3"]
       eq_refl _ _ eq_refl eq_refl eq_refl _ eq_refl eq_refl _ eq_refl _))).
  - left. split; [discriminate | reflexivity].
  - split; [discriminate | reflexivity].
  - lia.
  - lia.
  - left. lia.
Defined.

(** C2.  A single-verse reference [Book C:V] parses to a Reference whose
    chapter is [C] and whose start and end verse are both [V].  The input
    may carry surrounding white space, the book may be followed by any
    run of white space, and [C] and [V] are the integers that [int]
    reads from the two digit strings. *)
Theorem single_verse_reference_parses (ref b w c v : string) (cn vn : Z) :
  strip ref = (b ++ w ++ c ++ ":" ++ v)%string ->
  is_book b -> is_gap w -> int c = Ok cn -> int v = Ok vn ->
  parse_verse_reference ref
  = Ok (Some {| book := strip b; chapter := cn;
                start_verse := vn; end_verse := vn |}).
Proof.
  intros E Hb Hw Hc Hv.
  pose proof (int_inv_limit _ _ Hc) as Lc.
  pose proof (int_inv_limit _ _ Hv) as Lv.
  apply int_inv in Hc as [Hc ->]. apply int_inv in Hv as [Hv ->].
  apply (parse_ok ref b w c v "" None); simpl; auto.
  - now rewrite str_app_nil_r.
  - left. auto.
Qed.

Lemma single_verse_reference_parses_witness :
  parse_verse_reference "  John 3:16 "
  = Ok (Some {| book := "John"; chapter := 3; start_verse := 16; end_verse := 16 |}).
Proof.
  apply (single_verse_reference_parses "  John 3:16 " "John" " " "3" "16" 3 16).
  - reflexivity.
  - left. split; [discriminate | reflexivity].
  - split; [discriminate | reflexivity].
  - reflexivity.
  - reflexivity.
Defined.

(** C3.  A string that, once stripped, has neither of the two shapes is
    not parsed: [parse_verse_reference] returns [None], raising nothing,
    and the loop prints its warning, adds no verse and goes on with the
    next reference. *)
Theorem malformed_reference_is_skipped (ref : string) :
  ~ reference_shape (strip ref) ->
  parse_verse_reference ref = Ok None
  /\ forall kjv_data st,
      process_reference kjv_data st ref
      = Ok {| extracted := extracted st;
              out := out st ++ ["Warning: Could not parse reference: " ++ ref] |}
      /\ forall rest,
          reference_loop kjv_data (ref :: rest) st
          = reference_loop kjv_data rest
              {| extracted := extracted st;
                 out := out st ++ ["Warning: Could not parse reference: " ++ ref] |}.
Proof.
  intros Hshape.
  assert (Hp : parse_verse_reference ref = Ok None).
  { destruct (parse_cases ref) as [H|[[r H]|H]]; [exact H| |].
    - elim Hshape. eapply parses_shape. exact H.
    - elim Hshape. eapply raises_shape. exact H. }
  split; [exact Hp|]. intros kjv_data st.
  pose proof (process_unparsed kjv_data st ref Hp) as Hq. unfold print in Hq.
  split; [exact Hq|]. intros rest. simpl. now rewrite Hq.
Qed.

Lemma malformed_reference_is_skipped_witness :
  ~ reference_shape (strip "John 3:16-4:2")
  /\ parse_verse_reference "John 3:16-4:2" = Ok None.
Proof.
  assert (H : ~ reference_shape (strip "John 3:16-4:2")).
  { intros H. apply shape_matches in H as (e & g & H). vm_compute in H.
    discriminate. }
  split; [exact H|].
  exact (proj1 (malformed_reference_is_skipped "John 3:16-4:2" H)).
Defined.

(** C4, as the code has it.  The chapter and the verses of a parsed
    Reference are integers that are not negative; zero is admitted. *)
Theorem parsed_numbers_nonnegative (ref : string) (r : Reference) :
  parse_verse_reference ref = Ok (Some r) ->
  0 <= chapter r /\ 0 <= start_verse r /\ 0 <= end_verse r.
Proof.
  intros H.
  destruct (parse_inv ref r H)
    as (b & w & c & v & tl & x & _ & _ & _ & Hc & Hv & Htl & ->).
  destruct (reference_of_nonneg b c v tl x Hc Hv Htl) as (H1 & H2 & H3).
  auto.
Qed.

Lemma parsed_numbers_nonnegative_witness :
  parse_verse_reference "John 0:0"
  = Ok (Some {| book := "John"; chapter := 0; start_verse := 0; end_verse := 0 |})
  /\ 0 <= 0 /\ 0 <= 0 /\ 0 <= 0.
Proof.
  split; [reflexivity|].
  exact (parsed_numbers_nonnegative "John 0:0"
           {| book := "John"; chapter := 0; start_verse := 0; end_verse := 0 |}
           eq_refl).
Defined.

(** C4, as stated, fails: ["John 0:0"] parses, to chapter 0 and verse 0. *)
Lemma parsed_numbers_positive_fails :
  ~ (forall ref r, parse_verse_reference ref = Ok (Some r) ->
                   0 < chapter r /\ 0 < start_verse r /\ 0 < end_verse r).
Proof.
  intros H.
  destruct (H "John 0:0"
              {| book := "John"; chapter := 0; start_verse := 0; end_verse := 0 |}
              eq_refl) as [H0 _].
  simpl in H0. lia.
Qed.

(** C5, as the code has it.  A parsed single-verse reference ends at its
    start verse; a parsed range [V1-V2] starts at [V1] and ends at [V2],
    in whichever order the two numbers stand. *)
Theorem parsed_end_verse (ref : string) (r : Reference) :
  parse_verse_reference ref = Ok (Some r) ->
  (single_verse_shape (strip ref) /\ end_verse r = start_verse r)
  \/ (exists b w c v e,
         strip ref = (b ++ w ++ c ++ ":" ++ v ++ "-" ++ e)%string
         /\ is_book b /\ is_gap w /\ is_number c
         /\ int v = Ok (start_verse r) /\ int e = Ok (end_verse r)).
Proof.
  intros H.
  destruct (parse_inv_limit ref r H)
    as (b & w & c & v & tl & x & E & Hb & Hw & Hc & Hv & Htl & _ & Lv & Lx & ->).
  destruct Htl as [[-> ->]|(e & -> & He & ->)]; simpl.
  - left. split; [|reflexivity].
    exists b, w, c, v. rewrite str_app_nil_r in E. auto.
  - right. exists b, w, c, v, e.
    rewrite (int_of_number v Hv Lv), (int_of_number e He Lx). auto 10.
Qed.

Lemma parsed_end_verse_witness :
  (single_verse_shape (strip "John 3:16-2") /\ 2 = 16)
  \/ (exists b w c v e,
         strip "John 3:16-2" = (b ++ w ++ c ++ ":" ++ v ++ "-" ++ e)%string
         /\ is_book b /\ is_gap w /\ is_number c
         /\ int v = Ok 16 /\ int e = Ok 2).
Proof.
  exact (parsed_end_verse "John 3:16-2"
           {| book := "John"; chapter := 3; start_verse := 16; end_verse := 2 |}
           eq_refl).
Defined.

(** C5, as stated, fails: ["John 3:16-2"] parses, to a Reference that
    ends before it starts. *)
Lemma parsed_end_not_before_start_fails :
  ~ (forall ref r, parse_verse_reference ref = Ok (Some r) ->
                   start_verse r <= end_verse r).
Proof.
  intros H.
  pose proof (H "John 3:16-2"
                {| book := "John"; chapter := 3; start_verse := 16; end_verse := 2 |}
                eq_refl) as H0.
  simpl in H0. lia.
Qed.



(** Chapter 0 and verse 0 together: the one verse extracted is the last
    verse of the last chapter. *)
Example john_0_0 :
  process_reference kjv_sample initial "John 0:0"
  = Ok {| extracted := [ {| reference := "John 0:0"; text := "v3" |} ];
          out := [] |}.
Proof. reflexivity. Qed.

(** C7.  A reference that parses and whose book is not a key of
    [BOOK_ABBREV] raises nothing: the iteration adds no verse, prints the
    one warning that the book is unknown, and the loop goes on with the
    next reference. *)
Theorem unknown_book_is_skipped (kjv_data : list BookEntry) (st : State)
        (ref : string) (r : Reference) :
  parse_verse_reference ref = Ok (Some r) ->
  get BOOK_ABBREV (book r) = None ->
  process_reference kjv_data st ref
  = Ok {| extracted := extracted st;
          out := out st ++ ["Warning: Unknown book: " ++ book r] |}
  /\ forall rest,
      reference_loop kjv_data (ref :: rest) st
      = reference_loop kjv_data rest
          {| extracted := extracted st;
             out := out st ++ ["Warning: Unknown book: " ++ book r] |}.
Proof.
  intros H G.
  pose proof (process_unknown kjv_data st ref r H G) as Hq. unfold print in Hq.
  split; [exact Hq|]. intros rest. simpl. now rewrite Hq.
Qed.

Lemma unknown_book_is_skipped_witness :
  process_reference kjv_sample initial "NotABook 1:1"
  = Ok {| extracted := []; out := ["Warning: Unknown book: NotABook"] |}.
Proof.
  exact (proj1 (unknown_book_is_skipped kjv_sample initial "NotABook 1:1"
                  {| book := "NotABook"; chapter := 1;
                     start_verse := 1; end_verse := 1 |}
                  eq_refl eq_refl)).
Defined.

(** C8.  When the run returns, its questions are built from the verses
    the references resolve to, taken reference by reference in input
    order; there are as many questions as such verses, and their ids are
    [1, 2, ..., N] in output order, counted across all references. *)
Theorem question_ids_are_sequential (kjv_data : list BookEntry)
        (references : list string) (questions : list Question) :
  main_questions kjv_data references = Ok questions ->
  questions = build_questions (List.concat (map (resolved kjv_data) references))
  /\ List.length questions
     = List.length (List.concat (map (resolved kjv_data) references))
  /\ map id questions = range 1 (len questions + 1).
Proof.
  unfold main_questions, extract_verses_from_kjv. intros H.
  destruct (reference_loop kjv_data references initial) as [st|e] eqn:E;
    [|discriminate].
  simpl in H. injection H as <-.
  apply reference_loop_extracted in E. simpl in E. rewrite E.
  unfold build_questions. repeat split.
  - apply questions_from_length.
  - rewrite questions_from_ids. f_equal. unfold len.
    rewrite questions_from_length. lia.
Qed.

Lemma question_ids_are_sequential_witness :
  map id
    (build_questions
       (List.concat (map (resolved kjv_sample)
                         ["John 3:16"; "NotABook 1:1"; "Genesis 1:1-2"; "John 3:1"])))
  = [1; 2; 3].
Proof.
  destruct (question_ids_are_sequential kjv_sample
              ["John 3:16"; "NotABook 1:1"; "Genesis 1:1-2"; "John 3:1"]
              _ eq_refl) as (_ & _ & H).
  exact H.
Defined.

(** C9.  Cleaning a verse text twice gives what cleaning it once gives. *)
Theorem clean_idempotent (verse_text : string) :
  clean (clean verse_text) = clean verse_text.
Proof.
  unfold clean, re_sub.
  assert (H : no_pair (strip (sub_from annotation_pattern "" 0 0 verse_text)) = true)
    by apply strip_no_pair, sub_from_no_pair.
  rewrite (sub_from_fixed _ 0%nat H). apply strip_idem.
Qed.

(** C10.  Each extracted verse has a reference written
    [{book} {chapter}:{verse}] and the cleaned text of a verse of the
    corpus, and the question at the same place in the output asks
    ["What does {reference} say?"], answers with that text as it is, and
    has no options. *)
Theorem question_of_extracted_verse (kjv_data : list BookEntry)
        (references : list string) (st : State) (i : nat) (v : ExtractedVerse) :
  extract_verses_from_kjv kjv_data references = Ok st ->
  nth_error (extracted st) i = Some v ->
  from_corpus kjv_data v
  /\ exists q,
      nth_error (build_questions (extracted st)) i = Some q
      /\ question q = ("What does " ++ reference v ++ " say?")%string
      /\ correct_answer q = text v
      /\ options q = []
      /\ verse_reference q = reference v
      /\ verse_text q = text v
      /\ id q = Z.of_nat i + 1.
Proof.
  intros H Hv. split.
  - apply (reference_loop_from_corpus kjv_data references initial st) in H;
      [|constructor].
    rewrite Forall_forall in H. apply H. eapply nth_error_In. exact Hv.
  - eexists. split; [apply questions_from_nth; exact Hv|].
    cbn [question correct_answer options verse_reference verse_text id].
    repeat split; try reflexivity. lia.
Qed.

Lemma question_of_extracted_verse_witness :
  exists q,
    nth_error (build_questions
                 [ {| reference := "Genesis 1:1"; text := "In the beginning  God" |} ])
              0 = Some q
    /\ question q = "What does Genesis 1:1 say?"
    /\ correct_answer q = "In the beginning  God"
    /\ options q = []
    /\ verse_reference q = "Genesis 1:1"
    /\ verse_text q = "In the beginning  God"
    /\ id q = 1.
Proof.
  exact (proj2 (question_of_extracted_verse kjv_sample ["Genesis 1:1"]
                  {| extracted := [ {| reference := "Genesis 1:1";
                                       text := "In the beginning  God" |} ];
                     out := [] |}
                  0%nat
                  {| reference := "Genesis 1:1"; text := "In the beginning  God" |}
                  eq_refl eq_refl)).
Defined.

(** * Further properties of the script *)

(** ** What the run can raise *)

Section RaiseFacts.

Lemma index_raises {A : Type} (l : list A) (i : Z) (e : exn) :
  index l i = Raise e -> e = IndexError.
Proof.
  unfold index. destruct ((if i <? 0 then len l + i else i) <? 0).
  - intros H. now injection H.
  - destruct (nth_error l _); [discriminate|]. intros H. now injection H.
Qed.

Lemma verse_loop_raises (parsed : Reference) (chapter_verses : list string)
      (verse_nums : list Z) (e : exn) :
  forall st, verse_loop parsed chapter_verses verse_nums st = Raise e ->
             e = IndexError.
Proof.
  induction verse_nums as [|v vs IH]; intros st; simpl; [discriminate|].
  destruct (v - 1 <? len chapter_verses); [|apply IH].
  destruct (index chapter_verses (v - 1)) as [t|e'] eqn:E; cbn [bind].
  - apply IH.
  - intros H. injection H as <-. eapply index_raises. exact E.
Qed.

(** An iteration that raises: [ValueError] comes from the parser,
    [IndexError] from a fetch for a reference that parsed. *)
Lemma process_reference_raises (kjv_data : list BookEntry) (st : State)
      (ref : string) (e : exn) :
  process_reference kjv_data st ref = Raise e ->
  (e = IndexError /\ exists r, parse_verse_reference ref = Ok (Some r))
  \/ (e = ValueError /\ parse_verse_reference ref = Raise ValueError).
Proof.
  destruct (parse_cases ref) as [P|[[r P]|P]].
  - rewrite (process_unparsed _ _ _ P). discriminate.
  - intros H. left. split; [|eauto]. revert H.
    destruct (get BOOK_ABBREV (book r)) as [a|] eqn:G.
    + destruct (find_book kjv_data a) as [be|] eqn:F.
      * rewrite (process_found _ _ _ _ _ _ P G F). unfold book_body.
        destruct (chapter r - 1 <? len (chapters_of be)); [|discriminate].
        destruct (index (chapters_of be) (chapter r - 1)) as [cv|e'] eqn:E;
          cbn [bind].
        -- apply verse_loop_raises.
        -- intros H. injection H as <-. eapply index_raises. exact E.
      * rewrite (process_missing _ _ _ _ _ P G F). discriminate.
    + rewrite (process_unknown _ _ _ _ P G). discriminate.
  - rewrite (process_raised _ _ _ _ P). intros H. injection H as <-. auto.
Qed.

End RaiseFacts.

(** ** Safe references *)

Section SafeFacts.

Variable kjv_data : list BookEntry.

Lemma safe_reference_returns (st : State) (ref : string) :
  safe_reference ref = true ->
  exists st', process_reference kjv_data st ref = Ok st'.
Proof.
  unfold safe_reference. intros Hsafe.
  destruct (parse_cases ref) as [P|[[r P]|P]];
    [| |rewrite P in Hsafe; discriminate].
  - rewrite (process_unparsed _ _ _ P). eauto.
  - rewrite P in Hsafe. apply andb_true_iff in Hsafe as [Hc Hs].
    apply Z.leb_le in Hc, Hs.
    destruct (get BOOK_ABBREV (book r)) as [a|] eqn:G.
    + destruct (find_book kjv_data a) as [be|] eqn:F.
      * rewrite (process_found _ _ _ _ _ _ P G F). unfold book_body.
        destruct (chapter r - 1 <? len (chapters_of be)) eqn:E; [|eauto].
        apply Z.ltb_lt in E.
        destruct (index_returns (chapters_of be) (chapter r - 1)) as [cv Hi];
          [pose proof (len_nonneg (chapters_of be)); lia|].
        rewrite Hi. cbn [bind]. rewrite verse_loop_spec; [eauto|].
        apply Forall_forall. intros v Hv. apply range_In in Hv.
        pose proof (len_nonneg cv). lia.
      * rewrite (process_missing _ _ _ _ _ P G F). eauto.
    + rewrite (process_unknown _ _ _ _ P G). eauto.
Qed.

Lemma safe_references_return (references : list string) :
  forallb safe_reference references = true ->
  forall st, exists st', reference_loop kjv_data references st = Ok st'.
Proof.
  induction references as [|ref rest IH]; intros H st; simpl in *; [eauto|].
  apply andb_true_iff in H as [Href Hrest].
  destruct (safe_reference_returns st ref Href) as [st1 ->]. cbn [bind].
  now apply IH.
Qed.

End SafeFacts.

(** ** The reference a run raises on *)

Section RaisingFacts.

Lemma raising_reference (kjv_data : list BookEntry) (st : State) (ref : string)
      (e : exn) :
  process_reference kjv_data st ref = Raise e ->
  (e = IndexError
   /\ exists r, parse_verse_reference ref = Ok (Some r)
                /\ (chapter r = 0 \/ start_verse r = 0))
  \/ (e = ValueError /\ parse_verse_reference ref = Raise ValueError).
Proof.
  intros H.
  destruct (process_reference_raises _ _ _ _ H) as [[-> [r P]]|[-> P]];
    [left; split; [reflexivity|] | right; auto].
  exists r. split; [exact P|].
  destruct (parse_nonneg ref r P) as (Hc & Hs & _).
  destruct (Z.eq_dec (chapter r) 0) as [|Nc]; [now left|].
  destruct (Z.eq_dec (start_verse r) 0) as [|Ns]; [now right|].
  assert (Hsafe : safe_reference ref = true).
  { unfold safe_reference. rewrite P. apply andb_true_iff.
    split; apply Z.leb_le; lia. }
  destruct (safe_reference_returns kjv_data st ref Hsafe) as [st' E].
  rewrite E in H. discriminate.
Qed.

Lemma reference_loop_raises (kjv_data : list BookEntry) (references : list string)
      (e : exn) :
  forall st,
    reference_loop kjv_data references st = Raise e ->
    (e = IndexError
     /\ exists ref r, In ref references
                      /\ parse_verse_reference ref = Ok (Some r)
                      /\ (chapter r = 0 \/ start_verse r = 0))
    \/ (e = ValueError
        /\ exists ref, In ref references
                       /\ parse_verse_reference ref = Raise ValueError).
Proof.
  induction references as [|ref rest IH]; intros st; simpl; [discriminate|].
  destruct (process_reference kjv_data st ref) as [st1|e'] eqn:E; cbn [bind].
  - intros H.
    destruct (IH st1 H) as [[-> (ref' & r & Hin & P & Z0)]|[-> (ref' & Hin & P)]].
    + left. split; [reflexivity|]. exists ref', r. auto.
    + right. split; [reflexivity|]. exists ref'. auto.
  - intros H. injection H as <-.
    destruct (raising_reference _ _ _ _ E) as [[-> (r & P & Z0)]|[-> P]].
    + left. split; [reflexivity|]. exists ref, r. auto.
    + right. split; [reflexivity|]. exists ref. auto.
Qed.

Lemma lstrip_length (s : string) : (String.length (lstrip s) <= String.length s)%nat.
Proof.
  induction s as [|c s IH]; simpl; [lia|].
  destruct (isspace c); simpl; lia.
Qed.

Lemma rstrip_length (s : string) : (String.length (rstrip s) <= String.length s)%nat.
Proof.
  induction s as [|c s IH]; simpl; [lia|].
  destruct (rstrip s) as [|h r]; [destruct (isspace c)|]; simpl in *; lia.
Qed.

Lemma strip_length (s : string) : (String.length (strip s) <= String.length s)%nat.
Proof.
  unfold strip. pose proof (rstrip_length (lstrip s)). pose proof (lstrip_length s).
  lia.
Qed.

Lemma reading_length (t b w c v tl : string) (x : option string) :
  t = (b ++ w ++ c ++ ":" ++ v ++ tl)%string -> is_tail tl x ->
  ~ within_limit c \/ ~ within_limit v \/ ~ tail_within_limit x ->
  (max_str_digits < String.length t)%nat.
Proof.
  intros -> Htl H. rewrite !str_length_app.
  unfold within_limit in H.
  destruct H as [H|[H|H]]; [lia|lia|].
  destruct Htl as [[_ ->]|(y & -> & _ & ->)]; simpl in H; [tauto|].
  unfold within_limit in H. rewrite str_length_app. lia.
Qed.

End RaisingFacts.

(** ** How many verses a reference can add *)

Section SpanFacts.

Lemma verse_loop_grows (parsed : Reference) (chapter_verses : list string)
      (verse_nums : list Z) :
  forall st st',
    verse_loop parsed chapter_verses verse_nums st = Ok st' ->
    (List.length (extracted st')
     <= List.length (extracted st) + List.length verse_nums)%nat.
Proof.
  induction verse_nums as [|v vs IH]; intros st st' H; simpl in H.
  - injection H as <-. simpl. lia.
  - destruct (v - 1 <? len chapter_verses).
    + destruct (index chapter_verses (v - 1)) as [t|e]; [|discriminate].
      cbn [bind] in H. apply IH in H. unfold append in H. simpl in H.
      rewrite List.length_app in H. simpl in *. lia.
    + apply IH in H. simpl in *. lia.
Qed.

Lemma process_reference_grows (kjv_data : list BookEntry) (st st' : State)
      (ref : string) :
  process_reference kjv_data st ref = Ok st' ->
  (List.length (extracted st') <= List.length (extracted st) + span ref)%nat.
Proof.
  unfold span. intros H.
  destruct (parse_cases ref) as [P|[[r P]|P]];
    [| |rewrite (process_raised _ _ _ _ P) in H; discriminate]; rewrite P.
  - rewrite (process_unparsed _ _ _ P) in H. injection H as <-. simpl. lia.
  - destruct (get BOOK_ABBREV (book r)) as [a|] eqn:G.
    + destruct (find_book kjv_data a) as [be|] eqn:F.
      * rewrite (process_found _ _ _ _ _ _ P G F) in H. unfold book_body in H.
        destruct (chapter r - 1 <? len (chapters_of be)).
        -- destruct (index (chapters_of be) (chapter r - 1)) as [cv|e];
             [|discriminate].
           cbn [bind] in H. apply verse_loop_grows in H.
           unfold range in H. rewrite length_map, length_seq in H.
           exact H.
        -- injection H as <-. simpl. lia.
      * rewrite (process_missing _ _ _ _ _ P G F) in H. injection H as <-.
        simpl. lia.
    + rewrite (process_unknown _ _ _ _ P G) in H. injection H as <-. simpl. lia.
Qed.


End SpanFacts.

(** X1.  What [parse_verse_reference] does on every string, in three
    cases.  A string that, stripped, has neither shape gives [None].  A
    string that reads [<book><gap><c>:<v><tail>] with every numeral
    within the limit of [int] gives the Reference of that reading.  The
    function raises only when such a reading holds a numeral beyond the
    limit: the exception is then [ValueError], and the string is longer
    than [max_str_digits] characters. *)
Theorem parse_raises_only_beyond_limit (ref : string) :
  (parse_verse_reference ref = Ok None /\ ~ reference_shape (strip ref))
  \/ (exists b w c v tl x,
         strip ref = (b ++ w ++ c ++ ":" ++ v ++ tl)%string
         /\ is_book b /\ is_gap w /\ is_number c /\ is_number v /\ is_tail tl x
         /\ within_limit c /\ within_limit v /\ tail_within_limit x
         /\ parse_verse_reference ref = Ok (Some (reference_of b c v x)))
  \/ (exists b w c v tl x,
         strip ref = (b ++ w ++ c ++ ":" ++ v ++ tl)%string
         /\ is_book b /\ is_gap w /\ is_number c /\ is_number v /\ is_tail tl x
         /\ (~ within_limit c \/ ~ within_limit v \/ ~ tail_within_limit x)
         /\ (max_str_digits < String.length ref)%nat
         /\ parse_verse_reference ref = Raise ValueError).
Proof.
  destruct (parse_cases ref) as [P|[[r P]|P]].
  - left. split; [exact P|]. intros Hs.
    apply shape_matches in Hs as (e & g & Hm).
    destruct (match_reading ref e g Hm)
      as (b & w & c & v & tl & E & Hb & Hw & Hc & Hv & Htl & H1 & H2 & H3).
    rewrite (parse_of_groups ref b c v tl e g Hm H1 H2 H3 Htl) in P.
    destruct (int c); [|discriminate]. destruct (int v); [|discriminate].
    cbn [bind] in P.
    destruct (g 4%nat) as [y|]; [destruct (int y)|]; discriminate.
  - right. left.
    destruct (parse_inv_limit ref r P)
      as (b & w & c & v & tl & x & E & Hb & Hw & Hc & Hv & Htl & Lc & Lv & Lx & ->).
    exists b, w, c, v, tl, x. auto 12.
  - right. right.
    destruct (parse_raises ref _ P)
      as (_ & b & w & c & v & tl & x & E & Hb & Hw & Hc & Hv & Htl & Hl).
    exists b, w, c, v, tl, x.
    pose proof (reading_length _ _ _ _ _ _ _ E Htl Hl).
    pose proof (strip_length ref).
    assert ((max_str_digits < String.length ref)%nat) by lia.
    auto 12.
Qed.

(** A verse numeral of 4301 digits makes the parser raise, where one of
    4300 digits parses. *)
Example parse_long_numeral :
  parse_verse_reference ("John 1:" ++ ones 4301) = Raise ValueError
  /\ safe_reference ("John 1:" ++ ones 4300) = true.
Proof. split; vm_compute; reflexivity. Qed.

(** The run on a reference with such a numeral ends with the parser's
    [ValueError]. *)
Example run_long_numeral :
  main_questions kjv_sample ["John 3:3"; "John 1:" ++ ones 4301]
  = Raise ValueError.
Proof. vm_compute. reflexivity. Qed.

(** X2.  The run ends with no other exception than [IndexError] and
    [ValueError], over any list of book entries.  [IndexError] comes
    from a fetch at index -1 in an empty list: some reference then
    parses with chapter 0 or start verse 0.  [ValueError] comes from
    [int]: the parser then raises it on some reference. *)
Theorem run_raises_index_or_value_error (kjv_data : list BookEntry)
        (references : list string) (e : exn) :
  main_questions kjv_data references = Raise e ->
  (e = IndexError
   /\ exists ref r, In ref references
                    /\ parse_verse_reference ref = Ok (Some r)
                    /\ (chapter r = 0 \/ start_verse r = 0))
  \/ (e = ValueError
      /\ exists ref, In ref references
                     /\ parse_verse_reference ref = Raise ValueError).
Proof.
  unfold main_questions, extract_verses_from_kjv.
  destruct (reference_loop kjv_data references initial) as [st|e'] eqn:E;
    cbn [bind]; [discriminate|].
  intros H. injection H as <-. eapply reference_loop_raises. exact E.
Qed.

Lemma run_raises_index_or_value_error_witness :
  main_questions kjv_sample ["John 3:16"; "Genesis 2:0"] = Raise IndexError
  /\ ((IndexError = IndexError
       /\ exists ref r, In ref ["John 3:16"; "Genesis 2:0"]
                        /\ parse_verse_reference ref = Ok (Some r)
                        /\ (chapter r = 0 \/ start_verse r = 0))
      \/ (IndexError = ValueError
          /\ exists ref, In ref ["John 3:16"; "Genesis 2:0"]
                         /\ parse_verse_reference ref = Raise ValueError)).
Proof.
  split; [reflexivity|].
  exact (run_raises_index_or_value_error kjv_sample ["John 3:16"; "Genesis 2:0"]
           IndexError eq_refl).
Defined.

Lemma main_questions_returns_witness :
  exists questions,
    main_questions kjv_small ["John 0:0"; "Genesis 1:0-5"; "Acts 1:1"] = Ok questions.
Proof.
  apply (main_questions_returns kjv_small).
  - intros be Hin. simpl in Hin.
    destruct Hin as [<-|[<-|[]]]; (split; [discriminate|]);
      intros cv Hcv; simpl in Hcv;
      repeat (destruct Hcv as [<-|Hcv]; [discriminate|]); destruct Hcv.
  - intros ref Hin. simpl in Hin.
    destruct Hin as [<-|[<-|[<-|[]]]]; eexists; vm_compute; reflexivity.
Defined.

(** X4.  Over any list of book entries, the run returns when each
    reference either does not parse or parses with a chapter and a start
    verse of at least 1: no index is then negative, and the bounds tests
    cover the rest. *)
Theorem positive_references_run_returns (kjv_data : list BookEntry)
        (references : list string) :
  (forall ref, In ref references ->
     parse_verse_reference ref = Ok None
     \/ exists r, parse_verse_reference ref = Ok (Some r)
                  /\ 1 <= chapter r /\ 1 <= start_verse r) ->
  exists questions, main_questions kjv_data references = Ok questions.
Proof.
  intros H.
  assert (Hsafe : forallb safe_reference references = true).
  { apply forallb_forall. intros ref Hin. unfold safe_reference.
    destruct (H ref Hin) as [P|(r & P & Hc & Hs)]; rewrite P; [reflexivity|].
    apply andb_true_iff. split; now apply Z.leb_le. }
  unfold main_questions, extract_verses_from_kjv.
  destruct (safe_references_return kjv_data references Hsafe initial) as [st ->].
  cbn [bind]. eauto.
Qed.

Lemma positive_references_run_returns_witness :
  exists questions,
    main_questions kjv_sample ["Genesis 2:1"; "John 3:2-9"; "x"] = Ok questions.
Proof.
  apply (positive_references_run_returns kjv_sample).
  intros ref Hin. simpl in Hin.
  destruct Hin as [<-|[<-|[<-|[]]]].
  - right. eexists. split; [vm_compute; reflexivity|]. simpl. lia.
  - right. eexists. split; [vm_compute; reflexivity|]. simpl. lia.
  - left. vm_compute. reflexivity.
Defined.


(** ** The references that add nothing *)

Section EdgeFacts.

Lemma find_book_none (kjv_data : list BookEntry) (book_abbrev : string) :
  (forall book_entry, In book_entry kjv_data ->
                      abbrev book_entry <> Some book_abbrev) ->
  find_book kjv_data book_abbrev = None.
Proof.
  intros H. unfold find_book.
  destruct (find _ kjv_data) as [be|] eqn:F; [|reflexivity].
  apply find_some in F as [Hin Hab]. unfold abbrev_is in Hab.
  destruct (abbrev be) as [a|] eqn:Ea; [|discriminate].
  apply String.eqb_eq in Hab as ->. now elim (H be Hin).
Qed.

Lemma reference_loop_app (kjv_data : list BookEntry) (a b : list string) :
  forall st,
    reference_loop kjv_data (a ++ b) st
    = (st' <- reference_loop kjv_data a st ;; reference_loop kjv_data b st').
Proof.
  induction a as [|ref a IH]; intros st; simpl; [reflexivity|].
  destruct (process_reference kjv_data st ref) as [st1|e]; cbn [bind];
    [apply IH | reflexivity].
Qed.

Lemma reference_loop_framed (kjv_data : list BookEntry) (references : list string) :
  framed (reference_loop kjv_data references).
Proof.
  assert (G : forall st d,
             reference_loop kjv_data references (join st d)
             = match reference_loop kjv_data references d with
               | Ok d' => Ok (join st d')
               | Raise e => Raise e
               end).
  { induction references as [|ref rest IH]; intros st d; simpl; [reflexivity|].
    rewrite (process_reference_framed kjv_data ref (join st d)).
    rewrite (process_reference_framed kjv_data ref d).
    destruct (process_reference kjv_data initial ref) as [x|e]; cbn [bind];
      [|reflexivity].
    unfold join at 1. unfold join at 1. simpl.
    replace {| extracted := (extracted st ++ extracted d) ++ extracted x;
               out := (out st ++ out d) ++ out x |}
      with (join st (join d x))
      by (unfold join; simpl; now rewrite !List.app_assoc).
    apply IH. }
  intros st. rewrite <- (join_initial_r st) at 1. apply G.
Qed.

End EdgeFacts.

(** X6.  A range that ends before it starts, in a chapter the book has,
    passes in silence: the iteration extracts no verse and prints no
    warning. *)
Theorem reversed_range_is_silent (kjv_data : list BookEntry) (st : State)
        (ref : string) (r : Reference) (book_abbrev : string)
        (book_entry : BookEntry) :
  parse_verse_reference ref = Ok (Some r) ->
  get BOOK_ABBREV (book r) = Some book_abbrev ->
  find_book kjv_data book_abbrev = Some book_entry ->
  1 <= chapter r <= len (chapters_of book_entry) ->
  end_verse r < start_verse r ->
  process_reference kjv_data st ref = Ok st.
Proof.
  intros P G F Hc Hrev.
  rewrite (process_found kjv_data st ref r book_abbrev book_entry P G F).
  unfold book_body.
  destruct (chapter r - 1 <? len (chapters_of book_entry)) eqn:E;
    [|apply Z.ltb_ge in E; lia].
  destruct (index_returns (chapters_of book_entry) (chapter r - 1)) as [cv ->];
    [lia|].
  cbn [bind]. rewrite range_empty by lia. reflexivity.
Qed.

Lemma reversed_range_is_silent_witness :
  process_reference kjv_sample initial "John 3:3-1" = Ok initial.
Proof.
  apply (reversed_range_is_silent kjv_sample initial "John 3:3-1"
           {| book := "John"; chapter := 3; start_verse := 3; end_verse := 1 |}
           "jn"
           {| abbrev := Some "jn";
              chapters := Some [ ["a"]; ["b"]; ["v1"; "v2"; "{x}v3"] ] |});
    try reflexivity.
  vm_compute. split; discriminate.
Defined.

(** X7.  A chapter number beyond the chapters of the book: the iteration
    extracts no verse and prints the one warning that the chapter is not
    found. *)
Theorem chapter_beyond_book_is_skipped (kjv_data : list BookEntry) (st : State)
        (ref : string) (r : Reference) (book_abbrev : string)
        (book_entry : BookEntry) :
  parse_verse_reference ref = Ok (Some r) ->
  get BOOK_ABBREV (book r) = Some book_abbrev ->
  find_book kjv_data book_abbrev = Some book_entry ->
  len (chapters_of book_entry) < chapter r ->
  process_reference kjv_data st ref
  = Ok {| extracted := extracted st;
          out := out st ++ ["Warning: Chapter " ++ str (chapter r)
                              ++ " not found in " ++ book r] |}.
Proof.
  intros P G F Hc.
  rewrite (process_found kjv_data st ref r book_abbrev book_entry P G F).
  unfold book_body.
  destruct (chapter r - 1 <? len (chapters_of book_entry)) eqn:E;
    [apply Z.ltb_lt in E; lia|].
  reflexivity.
Qed.

Lemma chapter_beyond_book_is_skipped_witness :
  process_reference kjv_sample initial "John 4:1"
  = Ok {| extracted := []; out := ["Warning: Chapter 4 not found in John"] |}.
Proof.
  apply (chapter_beyond_book_is_skipped kjv_sample initial "John 4:1"
           {| book := "John"; chapter := 4; start_verse := 1; end_verse := 1 |}
           "jn"
           {| abbrev := Some "jn";
              chapters := Some [ ["a"]; ["b"]; ["v1"; "v2"; "{x}v3"] ] |});
    reflexivity.
Defined.

(** X8.  A book of [BOOK_ABBREV] whose abbreviation no entry of the
    corpus carries: the iteration extracts no verse and prints the one
    warning that the book is not found in the KJV data. *)
Theorem book_missing_from_corpus_is_skipped (kjv_data : list BookEntry) (st : State)
        (ref : string) (r : Reference) (book_abbrev : string) :
  parse_verse_reference ref = Ok (Some r) ->
  get BOOK_ABBREV (book r) = Some book_abbrev ->
  (forall book_entry, In book_entry kjv_data ->
                      abbrev book_entry <> Some book_abbrev) ->
  process_reference kjv_data st ref
  = Ok {| extracted := extracted st;
          out := out st ++ ["Warning: Book not found in KJV data: " ++ book r] |}.
Proof.
  intros P G H.
  exact (process_missing kjv_data st ref r book_abbrev P G
           (find_book_none kjv_data book_abbrev H)).
Qed.

Lemma book_missing_from_corpus_is_skipped_witness :
  process_reference kjv_sample initial "Acts 1:1"
  = Ok {| extracted := [];
          out := ["Warning: Book not found in KJV data: Acts"] |}.
Proof.
  apply (book_missing_from_corpus_is_skipped kjv_sample initial "Acts 1:1"
           {| book := "Acts"; chapter := 1; start_verse := 1; end_verse := 1 |}
           "act"); try reflexivity.
  intros be Hin. simpl in Hin.
  destruct Hin as [<-|[<-|[]]]; discriminate.
Defined.

(** X9.  Extraction over two lists of references, one after the other,
    is what the two extractions give, joined: the verses and the warnings
    of the first list, then those of the second.  When one of them
    raises, so does the whole, with the first exception met. *)
Theorem extraction_of_concatenation (kjv_data : list BookEntry)
        (a b : list string) :
  extract_verses_from_kjv kjv_data (a ++ b)
  = match extract_verses_from_kjv kjv_data a with
    | Ok sa =>
        match extract_verses_from_kjv kjv_data b with
        | Ok sb => Ok {| extracted := extracted sa ++ extracted sb;
                         out := out sa ++ out sb |}
        | Raise e => Raise e
        end
    | Raise e => Raise e
    end.
Proof.
  unfold extract_verses_from_kjv. rewrite reference_loop_app.
  destruct (reference_loop kjv_data a initial) as [sa|e]; cbn [bind];
    [|reflexivity].
  apply (reference_loop_framed kjv_data b sa).
Qed.

(** ** Annotation removal, span by span *)

Section SpanRemovalFacts.

Local Open Scope nat_scope.

Lemma annotation_match_body (pos : nat) (s : string) (e : nat) (g : groups) :
  match_at annotation_pattern pos s = Some (e, g) ->
  exists body rest,
    s = String "{" (body ++ String "}" rest)
    /\ all not_close body = true
    /\ e = pos + (2 + String.length body).
Proof.
  unfold match_at. intros H.
  apply run_sound in H as (s1 & rest & g' & -> & Hm & Hk).
  injection Hk as <- _. simpl in Hm.
  destruct Hm as (u & v & gm & -> & (-> & _) & Hm).
  destruct Hm as (body & cl & gm' & -> & (Hb & _) & (-> & _)).
  exists body, rest. repeat split.
  - now norm_app.
  - exact Hb.
  - rewrite !str_length_app. simpl. lia.
Qed.

(** The match at an opening brace ends at the first closing brace. *)
Lemma annotation_match_length (pos : nat) (body rest : string) :
  all not_close body = true ->
  exists g,
    match_at annotation_pattern pos (String "{" (body ++ String "}" rest))
    = Some (pos + (2 + String.length body), g).
Proof.
  intros Hb. destruct (annotation_match_ok pos body rest Hb) as (e & g & E).
  destruct (annotation_match_body _ _ _ _ E) as (body' & rest' & Es & Hb' & ->).
  injection Es as Es.
  apply (cut_at_sep not_close) in Es as [<- _]; auto. eauto.
Qed.

Lemma annotation_match_needs_open (pos : nat) (c : ascii) (s : string) :
  Ascii.eqb c "{" = false -> match_at annotation_pattern pos (String c s) = None.
Proof.
  intros Hc. destruct (match_at annotation_pattern pos (String c s)) as [[e g]|] eqn:E;
    [|reflexivity].
  destruct (annotation_match_inv _ _ _ _ E) as (body & rest & Es & _).
  injection Es as -> _. discriminate.
Qed.

(** Skipping the characters of a match. *)
Lemma sub_from_skip (r : regex) (x y : string) :
  forall pos,
    sub_from r "" (String.length x) pos (x ++ y)
    = sub_from r "" 0 (pos + String.length x) y.
Proof.
  induction x as [|c x IH]; intros pos; simpl.
  - now rewrite Nat.add_0_r.
  - rewrite IH. f_equal. lia.
Qed.

(** The annotation pattern has no anchor: where the scan stands in the
    subject does not matter. *)
Lemma sub_from_position (s : string) :
  forall skip pos pos',
    sub_from annotation_pattern "" skip pos s
    = sub_from annotation_pattern "" skip pos' s.
Proof.
  induction s as [|c s IH]; intros skip pos pos'.
  - simpl. destruct skip; [|reflexivity].
    now destruct (match_at annotation_pattern pos ""),
                 (match_at annotation_pattern pos' "").
  - cbn [sub_from]. destruct skip as [|k]; [|apply IH].
    destruct (match_at annotation_pattern pos (String c s)) as [[e g]|] eqn:E.
    + destruct (annotation_match_body _ _ _ _ E) as (body & rest & Es & Hb & ->).
      injection Es as -> ->.
      destruct (annotation_match_length pos' body rest Hb) as [g' ->].
      replace (pos + (2 + String.length body) - pos)
        with (S (S (String.length body))) by lia.
      replace (pos' + (2 + String.length body) - pos')
        with (S (S (String.length body))) by lia.
      simpl. apply IH.
    + apply annotation_match_none in E.
      destruct (match_at annotation_pattern pos' (String c s)) as [[e g]|] eqn:E'.
      * destruct (annotation_match_inv _ _ _ _ E') as (body & rest & Es & _).
        injection Es as -> ->. simpl in E.
        rewrite has_app in E. simpl in E. rewrite orb_true_r in E. discriminate.
      * simpl. f_equal. apply IH.
Qed.

(** Text without an opening brace is copied as it is. *)
Lemma sub_from_plain (a t : string) :
  has "{" a = false ->
  forall pos,
    sub_from annotation_pattern "" 0 pos (a ++ t)
    = (a ++ sub_from annotation_pattern "" 0 (pos + String.length a) t)%string.
Proof.
  induction a as [|c a IH]; intros Ha pos.
  - simpl. now rewrite Nat.add_0_r.
  - simpl in Ha. apply orb_false_iff in Ha as [Hc Ha].
    change (String c a ++ t)%string with (String c (a ++ t)).
    cbn [sub_from]. rewrite (annotation_match_needs_open pos c (a ++ t) Hc).
    rewrite (IH Ha). cbn [String.append String.length].
    now rewrite Nat.add_succ_r.
Qed.

Lemma no_open_no_pair (s : string) : has "{" s = false -> no_pair s = true.
Proof.
  induction s as [|c s IH]; simpl; [reflexivity|].
  intros H. apply orb_false_iff in H as [Hc Hs]. now rewrite Hc, IH.
Qed.

Lemma no_close_no_pair (s : string) : has "}" s = false -> no_pair s = true.
Proof.
  induction s as [|c s IH]; simpl; [reflexivity|].
  intros H. apply orb_false_iff in H as [Hc Hs].
  rewrite Hs, IH by exact Hs. simpl. now rewrite orb_true_r.
Qed.

Lemma no_pair_no_span (s a body b : string) :
  no_pair s = true -> s <> (a ++ String "{" (body ++ String "}" b))%string.
Proof.
  revert s. induction a as [|c a IH]; intros s H E; subst s; simpl in H.
  - rewrite has_app in H. simpl in H. rewrite orb_true_r in H. discriminate.
  - apply andb_true_iff in H as [_ H]. now apply (IH _ H).
Qed.

End SpanRemovalFacts.

(** ** Decimal numerals *)

Section DecimalFacts.

Lemma string_of_uint_digits (d : Decimal.uint) :
  all isdigit (NilEmpty.string_of_uint d) = true.
Proof. induction d; simpl; auto. Qed.

Lemma digits_value_uint_acc (d : Decimal.uint) :
  forall acc : positive,
    digits_value (Z.pos acc) (NilEmpty.string_of_uint d)
    = Z.pos (Pos.of_uint_acc d acc).
Proof.
  induction d; intros acc;
    cbn [NilEmpty.string_of_uint digits_value Pos.of_uint_acc];
    [reflexivity|..]; rewrite <- IHd; f_equal;
    change (Z.of_N (code _) - 48) with 0 || change (Z.of_N (code _) - 48) with 1
    || change (Z.of_N (code _) - 48) with 2 || change (Z.of_N (code _) - 48) with 3
    || change (Z.of_N (code _) - 48) with 4 || change (Z.of_N (code _) - 48) with 5
    || change (Z.of_N (code _) - 48) with 6 || change (Z.of_N (code _) - 48) with 7
    || change (Z.of_N (code _) - 48) with 8 || change (Z.of_N (code _) - 48) with 9;
    lia.
Qed.

Lemma digits_value_uint (d : Decimal.uint) :
  digits_value 0 (NilEmpty.string_of_uint d) = Z.of_N (Pos.of_uint d).
Proof.
  induction d; cbn [NilEmpty.string_of_uint digits_value Pos.of_uint];
    [reflexivity|exact IHd|..];
    exact (digits_value_uint_acc d _).
Qed.

(** [str] of an integer that is not negative is a numeral, and [int]
    reads the integer back from it. *)
Lemma str_is_number (n : Z) : 0 <= n -> is_number (str n).
Proof.
  intros Hn. unfold str. destruct n as [|p|p]; [split; [discriminate|reflexivity]| |lia].
  cbn [Z.to_int NilZero.string_of_int]. unfold NilZero.string_of_uint.
  destruct (Pos.to_uint p) eqn:E; try (split; [discriminate|]);
    try reflexivity;
    rewrite <- (string_of_uint_digits (Pos.to_uint p)), E; reflexivity.
Qed.

Lemma digits_value_str (n : Z) : 0 <= n -> digits_value 0 (str n) = n.
Proof.
  intros Hn. unfold str. destruct n as [|p|p]; [reflexivity| |lia].
  cbn [Z.to_int NilZero.string_of_int]. unfold NilZero.string_of_uint.
  pose proof (DecimalPos.Unsigned.of_to p) as Hp.
  destruct (Pos.to_uint p); [discriminate|..];
    rewrite digits_value_uint, Hp; reflexivity.
Qed.

Lemma int_str (n : Z) : 0 <= n -> within_limit (str n) -> int (str n) = Ok n.
Proof.
  intros Hn Hl. rewrite (int_of_number _ (str_is_number n Hn) Hl).
  now rewrite digits_value_str.
Qed.

Lemma digit_range (c : ascii) : isdigit c = true -> 0 <= Z.of_N (code c) - 48 <= 9.
Proof.
  unfold isdigit. intros H. apply andb_true_iff in H as [H1 H2].
  apply N.leb_le in H1, H2. lia.
Qed.

(** A numeral of [k] digits is below [10 ^ k]; one that does not begin
    with 0 is at least [10 ^ (k - 1)]. *)
Lemma digits_value_bounds (s : string) :
  all isdigit s = true ->
  forall acc, 0 <= acc ->
    acc * 10 ^ Z.of_nat (String.length s) <= digits_value acc s
    /\ digits_value acc s < (acc + 1) * 10 ^ Z.of_nat (String.length s).
Proof.
  induction s as [|c s IH]; intros H acc Hacc.
  - simpl. lia.
  - simpl in H. apply andb_true_iff in H as [Hc Hs].
    pose proof (digit_range c Hc) as Hd.
    cbn [digits_value String.length].
    destruct (IH Hs (10 * acc + (Z.of_N (code c) - 48))) as [Lo Hi]; [lia|].
    rewrite Nat2Z.inj_succ, Z.pow_succ_r by lia.
    assert (0 < 10 ^ Z.of_nat (String.length s)) by (apply Z.pow_pos_nonneg; lia).
    split; nia.
Qed.

Lemma nzhead_head (d : Decimal.uint) :
  match Decimal.nzhead d with Decimal.D0 _ => False | _ => True end.
Proof. induction d; simpl; auto. Qed.

Lemma to_uint_normal (p : positive) :
  match Pos.to_uint p with
  | Decimal.Nil | Decimal.D0 _ => False
  | _ => True
  end.
Proof.
  pose proof (DecimalPos.Unsigned.to_of (Pos.to_uint p)) as H.
  rewrite DecimalPos.Unsigned.of_to in H. cbn [N.to_uint] in H.
  pose proof (Unsigned.to_uint_nonnil p) as Hn.
  pose proof (nzhead_head (Pos.to_uint p)) as Hh.
  unfold Decimal.unorm in H.
  destruct (Decimal.nzhead (Pos.to_uint p)) eqn:E; rewrite H; simpl; auto.
  pose proof (Unsigned.to_uint_nonzero p) as Hz.
  rewrite H in Hz. now apply Hz.
Qed.

Lemma str_lower (n : Z) :
  0 < n -> 10 ^ (Z.of_nat (String.length (str n)) - 1) <= n.
Proof.
  intros Hn.
  assert (V : digits_value 0 (str n) = n) by (apply digits_value_str; lia).
  assert (D : all isdigit (str n) = true) by (apply str_is_number; lia).
  revert V D. unfold str. destruct n as [|p|p]; try lia.
  cbn [Z.to_int NilZero.string_of_int]. unfold NilZero.string_of_uint.
  pose proof (to_uint_normal p) as N.
  destruct (Pos.to_uint p) as [|d|d|d|d|d|d|d|d|d|d]; try contradiction;
    cbn [NilEmpty.string_of_uint]; intros V D;
    cbn [String.length all digits_value] in *;
    apply andb_true_iff in D as [_ D];
    match type of V with
    | digits_value ?a ?s = _ =>
        let k := fresh "k" in
        set (k := a) in *;
        assert (1 <= k) by (vm_compute; discriminate);
        destruct (digits_value_bounds s D k) as [Lo _]; [lia|];
        rewrite V in Lo;
        replace (Z.of_nat (S (String.length s)) - 1)
          with (Z.of_nat (String.length s)) by lia;
        assert (0 < 10 ^ Z.of_nat (String.length s))
          by (apply Z.pow_pos_nonneg; lia);
        nia
    end.
Qed.

Lemma str_length_le (n : Z) (k : nat) :
  0 <= n < 10 ^ Z.of_nat k -> (1 <= k)%nat -> (String.length (str n) <= k)%nat.
Proof.
  intros [Hn Hk] H1.
  destruct (Z.eq_dec n 0) as [->|Hz]; [exact H1|].
  pose proof (str_lower n ltac:(lia)) as Lo.
  destruct (Nat.le_gt_cases (String.length (str n)) k) as [|Hgt]; [assumption|].
  assert (10 ^ Z.of_nat k <= 10 ^ (Z.of_nat (String.length (str n)) - 1))
    by (apply Z.pow_le_mono_r; lia).
  lia.
Qed.

(** [str] of the value of a numeral within the limit is within the
    limit, and so is [str] of every smaller integer. *)
Lemma str_value_within (s : string) :
  is_number s -> within_limit s -> within_limit (str (digits_value 0 s)).
Proof.
  intros [Hne Hs] Hl. unfold within_limit in *.
  destruct (digits_value_bounds s Hs 0) as [Lo Hi]; [lia|].
  assert (Hlen : (1 <= String.length s)%nat)
    by (destruct s; [congruence | simpl; lia]).
  pose proof (str_length_le (digits_value 0 s) (String.length s)).
  lia.
Qed.

Lemma str_within_le (n m : Z) :
  0 <= n <= m -> within_limit (str m) -> within_limit (str n).
Proof.
  intros Hnm Hl. unfold within_limit in *.
  assert (Hm : all isdigit (str m) = true) by (apply str_is_number; lia).
  destruct (digits_value_bounds (str m) Hm 0) as [_ Hi]; [lia|].
  rewrite digits_value_str in Hi by lia.
  assert (Hlen : (1 <= String.length (str m))%nat).
  { destruct (str_is_number m) as [Hne _]; [lia|].
    destruct (str m); [congruence | simpl; lia]. }
  pose proof (str_length_le n (String.length (str m))).
  lia.
Qed.

End DecimalFacts.

(** ** The references of extracted verses *)

Section KeyFacts.

(** Every key of [BOOK_ABBREV] is a book the pattern can capture, with no
    white space around it. *)
Lemma BOOK_ABBREV_keys (k v : string) :
  get BOOK_ABBREV k = Some v -> is_book k /\ strip k = k.
Proof.
  unfold BOOK_ABBREV. cbn [get].
  repeat (match goal with
          | |- context [String.eqb ?x k] =>
              destruct (String.eqb_spec x k) as [<-|_]
          end;
          [intros _; split; [|reflexivity];
           first [ left; split; [discriminate | reflexivity]
                 | right; eexists _, _, _; split; [reflexivity|];
                   repeat split; try reflexivity; discriminate ]|]).
  discriminate.
Qed.

Lemma has_not_close (s : string) : has "}" s = false -> all not_close s = true.
Proof.
  induction s as [|c s IH]; simpl; [reflexivity|].
  intros H. apply orb_false_iff in H as [Hc Hs].
  unfold not_close at 1. now rewrite Hc, IH.
Qed.

Lemma strip_fixed (h l : ascii) (t u : string) :
  isspace h = false -> isspace l = false ->
  String h t = (u ++ String l "")%string -> strip (String h t) = String h t.
Proof.
  intros Hh Hl E. rewrite (strip_right h t Hh), E. now apply rstrip_fixed.
Qed.

End KeyFacts.

Section InvariantFacts.

Variable kjv_data : list BookEntry.
Variable P : ExtractedVerse -> Prop.

Hypothesis P_verse :
  forall (r : Reference) (book_abbrev : string) (n : Z) (raw : string),
    get BOOK_ABBREV (book r) = Some book_abbrev ->
    0 <= chapter r -> 0 <= n ->
    within_limit (str (chapter r)) -> within_limit (str n) ->
    P {| reference := book r ++ " " ++ str (chapter r) ++ ":" ++ str n;
         text := clean raw |}.

Lemma verse_loop_invariant (r : Reference) (book_abbrev : string)
      (chapter_verses : list string) (verse_nums : list Z) :
  get BOOK_ABBREV (book r) = Some book_abbrev -> 0 <= chapter r ->
  within_limit (str (chapter r)) ->
  Forall (fun n => 0 <= n /\ within_limit (str n)) verse_nums ->
  forall st st',
    Forall P (extracted st) ->
    verse_loop r chapter_verses verse_nums st = Ok st' ->
    Forall P (extracted st').
Proof.
  intros G Hc Lc.
  induction 1 as [|v vs [Hv Lv] _ IH]; intros st st' Hst H; simpl in H.
  - injection H as <-. exact Hst.
  - destruct (v - 1 <? len chapter_verses).
    + destruct (index chapter_verses (v - 1)) as [raw|e]; [|discriminate].
      cbn [bind] in H. eapply IH; [|exact H].
      unfold append. simpl. apply Forall_app. split; [exact Hst|].
      constructor; [|constructor]. eapply P_verse; eauto.
    + eapply IH; [|exact H]. exact Hst.
Qed.

(** The numbers of a parsed Reference are written by [str] within the
    limit of [int]. *)
Lemma parse_str_limit (ref : string) (r : Reference) :
  parse_verse_reference ref = Ok (Some r) ->
  within_limit (str (chapter r)) /\ within_limit (str (end_verse r)).
Proof.
  intros H.
  destruct (parse_inv_limit ref r H)
    as (b & w & c & v & tl & x & _ & _ & _ & Hc & Hv & Htl & Lc & Lv & Lx & ->).
  cbn [reference_of chapter end_verse].
  split; [now apply str_value_within|].
  destruct Htl as [[_ ->]|(y & _ & Hy & ->)]; now apply str_value_within.
Qed.

Lemma process_reference_invariant (ref : string) (st st' : State) :
  Forall P (extracted st) ->
  process_reference kjv_data st ref = Ok st' ->
  Forall P (extracted st').
Proof.
  intros Hst H.
  destruct (parse_cases ref) as [Q|[[r Q]|Q]];
    [| |rewrite (process_raised _ _ _ _ Q) in H; discriminate].
  - rewrite (process_unparsed _ _ _ Q) in H. injection H as <-. exact Hst.
  - destruct (get BOOK_ABBREV (book r)) as [a|] eqn:G.
    + destruct (find_book kjv_data a) as [be|] eqn:F.
      * rewrite (process_found _ _ _ _ _ _ Q G F) in H. unfold book_body in H.
        destruct (chapter r - 1 <? len (chapters_of be)).
        -- destruct (index (chapters_of be) (chapter r - 1)) as [cv|e];
             [|discriminate].
           cbn [bind] in H.
           destruct (parse_nonneg ref r Q) as (Hc & Hs & _).
           destruct (parse_str_limit ref r Q) as [Lc Le].
           eapply (verse_loop_invariant r a cv);
             [exact G|exact Hc|exact Lc| |exact Hst|exact H].
           apply Forall_forall. intros n Hn. apply range_In in Hn.
           split; [lia|]. apply (str_within_le n (end_verse r)); [lia|exact Le].
        -- injection H as <-. exact Hst.
      * rewrite (process_missing _ _ _ _ _ Q G F) in H. injection H as <-.
        exact Hst.
    + rewrite (process_unknown _ _ _ _ Q G) in H. injection H as <-. exact Hst.
Qed.

Lemma reference_loop_invariant (references : list string) :
  forall st st',
    Forall P (extracted st) ->
    reference_loop kjv_data references st = Ok st' ->
    Forall P (extracted st').
Proof.
  induction references as [|ref rest IH]; intros st st' Hst H; simpl in H.
  - injection H as <-. exact Hst.
  - destruct (process_reference kjv_data st ref) as [st1|e] eqn:E; [|discriminate].
    cbn [bind] in H. eapply IH; [|exact H].
    eapply process_reference_invariant; eauto.
Qed.

End InvariantFacts.

(** X10.  The text of every extracted verse is clean: it holds no span
    from an opening brace to a closing brace, and it neither begins nor
    ends with white space. *)
Theorem extracted_texts_are_clean (kjv_data : list BookEntry)
        (references : list string) (st : State) (v : ExtractedVerse) :
  extract_verses_from_kjv kjv_data references = Ok st ->
  In v (extracted st) ->
  (forall a body b, text v <> (a ++ "{" ++ body ++ "}" ++ b)%string)
  /\ (forall c t, text v = String c t -> isspace c = false)
  /\ (forall t c, text v = (t ++ String c "")%string -> isspace c = false).
Proof.
  intros H Hv.
  apply (reference_loop_invariant kjv_data
           (fun v => exists raw, text v = clean raw) ) in H.
  - rewrite Forall_forall in H. destruct (H v Hv) as [raw ->].
    unfold clean, re_sub. repeat split.
    + intros a body b. apply no_pair_no_span, strip_no_pair, sub_from_no_pair.
    + intros c t. apply strip_head.
    + intros t c. apply strip_last.
  - intros r a n raw _ _ _ _ _. now exists raw.
  - constructor.
Qed.

Lemma extracted_texts_are_clean_witness :
  (forall a body b, "v3"%string <> (a ++ "{" ++ body ++ "}" ++ b)%string)
  /\ (forall c t, "v3"%string = String c t -> isspace c = false)
  /\ (forall t c, "v3"%string = (t ++ String c "")%string -> isspace c = false).
Proof.
  exact (extracted_texts_are_clean kjv_sample ["John 3:3"]
           {| extracted := [ {| reference := "John 3:3"; text := "v3" |} ];
              out := [] |}
           {| reference := "John 3:3"; text := "v3" |}
           eq_refl (or_introl eq_refl)).
Defined.

(** X11.  Annotation removal takes out a span from the first opening
    brace to the first closing brace after it, keeps the text before it
    as it is, and goes on with the text after it. *)
Theorem annotation_is_removed (a body b : string) :
  has "{" a = false -> has "}" body = false ->
  re_sub annotation_pattern "" (a ++ "{" ++ body ++ "}" ++ b)
  = (a ++ re_sub annotation_pattern "" b)%string.
Proof.
  intros Ha Hb. apply has_not_close in Hb. unfold re_sub.
  rewrite (sub_from_plain a _ Ha 0%nat). f_equal.
  change ("{" ++ body ++ "}" ++ b)%string with (String "{" (body ++ String "}" b)).
  cbn [sub_from].
  destruct (annotation_match_length (0 + String.length a) body b Hb) as [g ->].
  replace (0 + String.length a + (2 + String.length body) - (0 + String.length a))%nat
    with (S (S (String.length body))) by lia.
  simpl (("" ++ _)%string).
  replace (S (String.length body)) with (String.length (body ++ "}"))
    by (rewrite str_length_app; simpl; lia).
  replace (body ++ String "}" b)%string with ((body ++ "}") ++ b)%string
    by now norm_app.
  rewrite sub_from_skip. apply sub_from_position.
Qed.

Lemma annotation_is_removed_witness :
  re_sub annotation_pattern "" "In the beginning {note} God"
  = "In the beginning  God".
Proof.
  exact (annotation_is_removed "In the beginning " "note" " God" eq_refl eq_refl).
Defined.

(** X12.  A verse text without an opening brace, or without a closing
    brace, is only stripped. *)
Theorem brace_free_text_is_stripped (verse_text : string) :
  has "{" verse_text = false \/ has "}" verse_text = false ->
  clean verse_text = strip verse_text.
Proof.
  intros H. unfold clean, re_sub. f_equal. apply sub_from_fixed.
  destruct H as [H|H]; [now apply no_open_no_pair | now apply no_close_no_pair].
Qed.

Lemma brace_free_text_is_stripped_witness :
  clean " an open { brace " = "an open { brace".
Proof.
  exact (brace_free_text_is_stripped " an open { brace " (or_intror eq_refl)).
Defined.

(** X13.  An iteration only appends to the verses extracted so far, and
    by no more than the number of verse numbers the reference ranges
    over: none for a reference that does not parse or that ends before it
    starts. *)
Theorem reference_adds_at_most_its_span (kjv_data : list BookEntry)
        (st st' : State) (ref : string) :
  process_reference kjv_data st ref = Ok st' ->
  exists new,
    extracted st' = (extracted st ++ new)%list
    /\ (List.length new <= span ref)%nat.
Proof.
  intros H.
  destruct (framed_ok (fun st => process_reference kjv_data st ref) st st'
              (process_reference_framed kjv_data ref) H) as (d & Hd & ->).
  exists (extracted d). split; [reflexivity|].
  apply process_reference_grows in Hd. simpl in Hd. exact Hd.
Qed.

Lemma reference_adds_at_most_its_span_witness :
  exists new,
    [ {| reference := "John 3:2"; text := "v2" |};
      {| reference := "John 3:3"; text := "v3" |} ] = ([] ++ new)%list
    /\ (List.length new <= span "John 3:2-9")%nat.
Proof.
  exact (reference_adds_at_most_its_span kjv_sample initial
           {| extracted := [ {| reference := "John 3:2"; text := "v2" |};
                             {| reference := "John 3:3"; text := "v3" |} ];
              out := [ "Warning: Verse 4 not found in John 3";
                       "Warning: Verse 5 not found in John 3";
                       "Warning: Verse 6 not found in John 3";
                       "Warning: Verse 7 not found in John 3";
                       "Warning: Verse 8 not found in John 3";
                       "Warning: Verse 9 not found in John 3" ] |}
           "John 3:2-9" eq_refl).
Defined.

(** X14.  The reference of every extracted verse reads back: it parses,
    as a single verse, to the book, the chapter and the verse number it
    was written from, and the book is a key of [BOOK_ABBREV]. *)
Theorem extracted_reference_parses_back (kjv_data : list BookEntry)
        (references : list string) (st : State) (v : ExtractedVerse) :
  extract_verses_from_kjv kjv_data references = Ok st ->
  In v (extracted st) ->
  exists (k : string) (c n : Z),
    reference v = (k ++ " " ++ str c ++ ":" ++ str n)%string
    /\ get BOOK_ABBREV k <> None
    /\ parse_verse_reference (reference v)
       = Ok (Some {| book := k; chapter := c; start_verse := n; end_verse := n |}).
Proof.
  intros H Hv.
  apply (reference_loop_invariant kjv_data
           (fun v => exists (k a : string) (c n : Z),
                reference v = (k ++ " " ++ str c ++ ":" ++ str n)%string
                /\ get BOOK_ABBREV k = Some a /\ 0 <= c /\ 0 <= n
                /\ within_limit (str c) /\ within_limit (str n))) in H.
  - rewrite Forall_forall in H.
    destruct (H v Hv) as (k & a & c & n & E & G & Hc & Hn & Lc & Ln).
    exists k, c, n. split; [exact E|]. split; [congruence|].
    destruct (BOOK_ABBREV_keys k a G) as [Hk Hstrip].
    pose proof (str_is_number c Hc) as Nc. pose proof (str_is_number n Hn) as Nn.
    assert (Hparse := parse_ok (reference v) k " " (str c) (str n) "" None).
    unfold reference_of in Hparse.
    rewrite Hstrip in Hparse.
    rewrite (digits_value_str c Hc), (digits_value_str n Hn) in Hparse.
    apply Hparse; simpl; auto.
    + rewrite E, str_app_nil_r.
      destruct k as [|h t]; [now apply is_book_nonempty in Hk|].
      destruct (last_char (str n) (proj1 Nn)) as (u & l & El).
      assert (Hl : isspace l = false).
      { destruct Nn as [_ Nn]. rewrite El, str_all_app in Nn.
        apply andb_true_iff in Nn as [_ Nn]. simpl in Nn.
        rewrite andb_true_r in Nn.
        destruct (isspace l) eqn:S; [|reflexivity].
        apply space_not_digit in S. congruence. }
      assert (Hh : isspace h = false) by (eapply strip_head; exact Hstrip).
      change (String h t ++ " " ++ str c ++ ":" ++ str n)%string
        with (String h (t ++ " " ++ str c ++ ":" ++ str n)).
      apply (strip_fixed h l _ (String h t ++ " " ++ str c ++ ":" ++ u) Hh Hl).
      rewrite El. now norm_app.
    + split; [discriminate | reflexivity].
    + left. auto.
  - intros r a n raw G Hc Hn Lc Ln. exists (book r), a, (chapter r), n. auto 10.
  - constructor.
Qed.

Lemma extracted_reference_parses_back_witness :
  exists (k : string) (c n : Z),
    "John 3:3"%string = (k ++ " " ++ str c ++ ":" ++ str n)%string
    /\ get BOOK_ABBREV k <> None
    /\ parse_verse_reference "John 3:3"
       = Ok (Some {| book := k; chapter := c; start_verse := n; end_verse := n |}).
Proof.
  exact (extracted_reference_parses_back kjv_sample ["John 3:3"]
           {| extracted := [ {| reference := "John 3:3"; text := "v3" |} ];
              out := [] |}
           {| reference := "John 3:3"; text := "v3" |}
           eq_refl (or_introl eq_refl)).
Defined.
